(** * Cloud log tailing (cloudapi/logs.go): model and properties

    A shallow embedding of the log-tailing client of k6's cloudapi package:
    the wire batch ([msg]) and its rendering into a logrus sink ([Log]),
    the latest-timestamp tracker ([timestampTrack]), the bounded retry with
    exponential backoff ([retry]), the dial ([logtailConn]) and the read
    loop of [StreamLogsToLogger] together with the body of its consumer
    goroutine.

    Conventions.
    - Go's [int], [int64] and [time.Duration] are 64-bit two's complement
      integers: they are [Z] values, and every operation that can leave the
      range is followed by [wrap64].  [uint] and [uint64] are [Z] values in
      [0, 2^64), wrapped by [wrapu64].
    - A [time.Time] is the number of nanoseconds since the Unix epoch.
    - A Go [error] is an [option]: [None] is [nil].
    - A Go string is a [string] (a sequence of bytes);  a
      [map[string]string] is a [gmap string string].
    - Collaborators (the websocket, the clock, the random source, the
      logger) are operations on an explicit world state. *)

From Stdlib Require Import ZArith Lia Ascii String List.
From stdpp Require Import base option list gmap strings fin_maps.

Import ListNotations.
Local Open Scope Z_scope.

(** ** Machine integers *)

Module Int.

Definition two63 : Z := 2 ^ 63.
Definition two64 : Z := 2 ^ 64.
Definition MaxInt64 : Z := two63 - 1.
Definition MinInt64 : Z := - two63.
Definition MaxUint64 : Z := two64 - 1.

(** Truncation to 64 bits, read as a signed number. *)
Definition wrap64 (x : Z) : Z := (x + two63) mod two64 - two63.

(** Truncation to 64 bits, read as an unsigned number. *)
Definition wrapu64 (x : Z) : Z := x mod two64.

Definition in_int64 (x : Z) : Prop := MinInt64 <= x <= MaxInt64.
Definition in_uint64 (x : Z) : Prop := 0 <= x <= MaxUint64.

End Int.

(** ** strconv: decimal parsing

    [strconv.ParseInt(s, 10, 64)] and [strconv.Atoi(s)] as the Go standard
    library defines them.  Both return a value and an error; the error is
    either a syntax error (the value is then 0) or a range error (the value
    is then the nearest bound of the type). *)

Module strconv.

Import Int.

Inductive NumError := ErrSyntax | ErrRange.

Definition digit (c : ascii) : option Z :=
  let n := Z.of_N (N_of_ascii c) in
  if (48 <=? n) && (n <=? 57) then Some (n - 48) else None.

(** Smallest number such that [cutoff * 10 > MaxUint64]. *)
Definition cutoff10 : Z := MaxUint64 / 10 + 1.

(** The digit loop of [ParseUint] in base 10 with a 64-bit result: in this
    base every byte that is not a decimal digit is a syntax error. *)
Fixpoint ParseUint_loop (s : string) (n : Z) : Z * option NumError :=
  match s with
  | EmptyString => (n, None)
  | String c s' =>
      match digit c with
      | None => (0, Some ErrSyntax)
      | Some d =>
          if cutoff10 <=? n then (MaxUint64, Some ErrRange)
          else
            let n := wrapu64 (n * 10) in
            let n1 := wrapu64 (n + d) in
            if (n1 <? n) || (MaxUint64 <? n1) then (MaxUint64, Some ErrRange)
            else ParseUint_loop s' n1
      end
  end.

Definition ParseUint (s : string) : Z * option NumError :=
  match s with
  | EmptyString => (0, Some ErrSyntax)
  | _ => ParseUint_loop s 0
  end.

Definition ParseInt (s : string) : Z * option NumError :=
  match s with
  | EmptyString => (0, Some ErrSyntax)
  | String c rest =>
      let '(neg, s1) :=
        if Ascii.eqb c "+" then (false, rest)
        else if Ascii.eqb c "-" then (true, rest)
        else (false, s) in
      match ParseUint s1 with
      | (_, Some ErrSyntax) => (0, Some ErrSyntax)
      | (un, _) =>
          let cutoff := two63 in
          if negb neg && (cutoff <=? un) then (wrap64 (cutoff - 1), Some ErrRange)
          else if neg && (cutoff <? un) then (wrap64 (- wrap64 cutoff), Some ErrRange)
          else
            let n := wrap64 un in
            (if neg then wrap64 (- n) else n, None)
      end
  end.

(** [Atoi(s)] is [ParseInt(s, 10, 0)] converted to [int]; on a 64-bit
    platform its short-input path returns the same value and the same kind
    of error. *)
Definition Atoi (s : string) : Z * option NumError := ParseInt s.

End strconv.

(** ** logrus: levels and the sink *)

Module logrus.

Inductive Level :=
| PanicLevel | FatalLevel | ErrorLevel | WarnLevel
| InfoLevel | DebugLevel | TraceLevel.

Abbreviation Fields := (gmap string string).

(** One call on an entry of the logger: the level of the call, the fields
    and the time the entry was built with, and the message. *)
Record LogRecord := mkLogRecord {
  r_level : Level;
  r_fields : Fields;
  r_time : Z;
  r_msg : string
}.

(** The sink is the sequence of calls made on the logger, oldest first. *)
Abbreviation Sink := (list LogRecord).

Definition lower (c : ascii) : ascii :=
  let n := N_of_ascii c in
  if (65 <=? n)%N && (n <=? 90)%N then ascii_of_N (n + 32) else c.

Fixpoint ToLower (s : string) : string :=
  match s with
  | EmptyString => EmptyString
  | String c s' => String (lower c) (ToLower s')
  end.

(** [logrus.ParseLevel] on level names written in ASCII. *)
Definition ParseLevel (lvl : string) : option Level :=
  let l := ToLower lvl in
  if String.eqb l "panic" then Some PanicLevel
  else if String.eqb l "fatal" then Some FatalLevel
  else if String.eqb l "error" then Some ErrorLevel
  else if String.eqb l "warn" || String.eqb l "warning" then Some WarnLevel
  else if String.eqb l "info" then Some InfoLevel
  else if String.eqb l "debug" then Some DebugLevel
  else if String.eqb l "trace" then Some TraceLevel
  else None.

End logrus.

(** ** The wire batch and its rendering *)

Module cloudapi.

Import Int.

(** [msgStreams]: a label set and its [(timestamp, text)] pairs. *)
Record msgStreams := mkStreams {
  Stream : gmap string string;
  Values : list (string * string)
}.

(** [msgDroppedEntries] *)
Record msgDroppedEntries := mkDropped {
  Labels : gmap string string;
  Timestamp : string
}.

(** [msg] *)
Record msg := mkMsg {
  Streams : list msgStreams;
  DroppedEntries : list msgDroppedEntries
}.

(** [(ms *msgStreams) LatestTimestamp()] *)
Definition LatestTimestamp (ms : msgStreams) : Z :=
  match Values ms with
  | [] => 0
  | value :: _ =>
      match strconv.ParseInt value.1 with
      | (unix, None) => unix
      | (_, Some _) => 0
      end
  end.

(** [labelsToLogrusFields]: a fresh map filled key by key. *)
Definition labelsToLogrusFields (labels : gmap string string) : logrus.Fields :=
  map_fold (fun key val (fields : logrus.Fields) => <[key := val]> fields) ∅ labels.

Section Render.

(** [logrus.ParseLevel], the level parser of the logging library. *)
Variable ParseLevel : string -> option logrus.Level.

(** Body of the inner loop of [Log]: one [(timestamp, text)] pair of a
    stream, logged through an entry carrying [fields] and the pair's
    time. *)
Definition log_value (fields : logrus.Fields) (level : string)
    (logger : logrus.Sink) (value : string * string) : logrus.Sink :=
  let nsec := (strconv.Atoi value.1).1 in
  let e := fun lvl m => logrus.mkLogRecord lvl fields (wrap64 nsec) m in
  match ParseLevel level with
  | None =>
      let logger := logger ++ [e logrus.InfoLevel value.2] in
      logger ++ [e logrus.WarnLevel ("last message had unknown level " +:+ level)]
  | Some lvl => logger ++ [e lvl value.2]
  end.

(** Body of the outer loop of [Log].  The variable [level] is declared
    before the loop, so it is part of the loop state; the comma-ok map
    read assigns it on every iteration (the zero value when the key is
    absent). *)
Definition log_stream (st : string * logrus.Sink) (stream : msgStreams)
    : string * logrus.Sink :=
  let '(_, logger) := st in
  let fields := labelsToLogrusFields (Stream stream) in
  let '(level, ok) :=
    match Stream stream !! "level"%string with
    | Some l => (l, true)
    | None => (""%string, false)
    end in
  let fields := if ok then delete "level"%string fields else fields in
  (level, fold_left (log_value fields level) (Values stream) logger).

(** Body of the second loop of [Log]. *)
Definition log_dropped (logger : logrus.Sink) (dropped : msgDroppedEntries)
    : logrus.Sink :=
  let nsec := (strconv.Atoi (Timestamp dropped)).1 in
  logger ++ [logrus.mkLogRecord logrus.WarnLevel
               (labelsToLogrusFields (Labels dropped)) (wrap64 nsec) "dropped"].

(** [(m *msg) Log(logger)] *)
Definition Log (m : msg) (logger : logrus.Sink) : logrus.Sink :=
  let '(_, logger) := fold_left log_stream (Streams m) (""%string, logger) in
  fold_left log_dropped (DroppedEntries m) logger.

End Render.

(** ** The tracker of the latest timestamp *)

(** [timestampTrack]: [ts] is a Unix time in nanoseconds. *)
Record timestampTrack := mkTrack { ts : Z }.

Definition Millisecond : Z := 1000000.
Definition Second : Z := 1000 * Millisecond.
Definition Minute : Z := 60 * Second.

(** [(tst *timestampTrack) TimeOrNow()], given the reading of the clock. *)
Definition TimeOrNow (now : Z) (tst : timestampTrack) : Z :=
  let t := now in
  if 0 <? ts tst then ts tst + 1 * Millisecond else t.

(** [(tst *timestampTrack) Set(ts)] *)
Definition Set_ (tst : timestampTrack) (ts' : Z) : timestampTrack :=
  if ts' <? 1 then tst else mkTrack ts'.

(** ** Bounded retry with exponential backoff *)

Section Retry.

(** [W] is the state of the world the sleeper and the action act on,
    [E] the type of non-nil errors, [Rng] the state of a [*rand.Rand]. *)
Context {W E Rng : Type}.

(** [time.Duration(math.Pow(b, float64(i)))] where [b ^ i] is too large
    for float64 to hold every integer below it: the value then depends
    on the rounding of the float products and, past the range of int64,
    on the platform's conversion. *)
Variable PowConv : Z -> Z -> Z.

(** [(r *rand.Rand) Int63n(n)] *)
Variable Int63n : Z -> Rng -> Z * Rng.

(** [s.Sleep(d)] of the [sleeper] interface. *)
Variable Sleep : Z -> W -> W.

(** The retried function [do]. *)
Variable do : W -> option E * W.

(** [math.Abs(interval.Truncate(time.Second).Seconds())].  [Truncate]
    rounds toward zero to a multiple of a second, so [Seconds] has no
    fractional part and the float64 is a whole number below 2^53. *)
Definition baseSeconds (interval : Z) : Z :=
  let truncated := wrap64 (interval - Z.rem interval Second) in
  let sec := Z.quot truncated Second in
  Z.abs sec.

(** [time.Duration(math.Pow(baseInterval, float64(i)))] for [i >= 1].
    Below 2^53 every product formed by [math.Pow] is a whole number that
    float64 holds exactly. *)
Definition pow_duration (base i : Z) : Z :=
  if base ^ i <? 2 ^ 53 then base ^ i else PowConv base i.

(** The duration handed to [s.Sleep] before attempt [i], with the random
    number [jitter] drawn for it. *)
Definition backoff (base i jitter max : Z) : Z :=
  let wait := wrap64 (pow_duration base i * Second) in
  let wait := wrap64 (wait + wrap64 (jitter * Millisecond)) in
  if max <? wait then max else wait.

(** The [for] loop of [retry], by the number [n] of iterations left;
    [i] never exceeds [int(attempts)], so [i++] cannot overflow. *)
Fixpoint retry_loop (n : nat) (i base max : Z) (err : option E)
    (r : Rng) (w : W) : option E * W :=
  match n with
  | O => (err, w)
  | S n' =>
      let '(r, w) :=
        if 0 <? i then
          let '(jitter, r) := Int63n 1000 r in
          (r, Sleep (backoff base i jitter max) w)
        else (r, w) in
      let '(err, w) := do w in
      match err with
      | None => (None, w)
      | Some _ => retry_loop n' (i + 1) base max err r w
      end
  end.

(** [retry(s, attempts, interval, max, do)]; [r] is the generator seeded
    from the clock, [attempts] a [uint]. *)
Definition retry (r : Rng) (attempts interval max : Z) (w : W)
    : option E * W :=
  let baseInterval := baseSeconds interval in
  retry_loop (Z.to_nat (wrap64 attempts)) 0 baseInterval max None r w.

End Retry.

(** ** Dialing and the read loop *)

Section Tail.

Context {W E Rng Conn URL Message : Type}.

Variable PowConv : Z -> Z -> Z.
Variable Int63n : Z -> Rng -> Z * Rng.

(** [rand.New(rand.NewSource(time.Now().UnixNano()))] *)
Variable NewRand : W -> Rng.

(** [time.Now()] and [time.Sleep(d)] *)
Variable Now : W -> Z.
Variable time_Sleep : Z -> W -> W.

(** [url.Parse(c.LogsTailURL.String)] *)
Variable LogsTailURL : E + URL.

(** [fmt.Errorf("couldn't parse cloud logs host %w", err)] *)
Variable parse_error : E -> E.

(** [websocket.DefaultDialer.DialContext(ctx, u.String(), headers)] for
    the host [u], the query's [test_run_id] and its [start]: a
    connection or an error. *)
Variable DialContext : URL -> string -> Z -> W -> (E + Conn) * W.

(** [conn.ReadMessage()] *)
Variable ReadMessage : Conn -> W -> (Message * option E) * W.

(** The non-blocking [select] on [ctx.Done()]. *)
Variable ctxDone : W -> bool * W.

(** [logger.WithError(err).Warn("error reading a log message ...")] *)
Variable warn_read_error : E -> W -> W.

(** The tracker shared with the consumer goroutine, as the reader finds
    it. *)
Variable latest : W -> timestampTrack.

(** The blocking [select] between [ctx.Done()] and the send on
    [msgBuffer]: [true] when the message was handed over. *)
Variable forward : Message -> W -> bool * W.

(** The function literal retried by [logtailConn]; it assigns the
    captured variable [conn]. *)
Definition dial (u : URL) (referenceID : string) (start : Z)
    (st : option Conn * W) : option E * (option Conn * W) :=
  let '(_, w) := st in
  match DialContext u referenceID start w with
  | (inl err, w) => (Some err, (None, w))
  | (inr conn, w) => (None, (Some conn, w))
  end.

(** [(c *Config) logtailConn(ctx, referenceID, since)] *)
Definition logtailConn (referenceID : string) (since : Z) (w : W)
    : (option Conn * option E) * W :=
  match LogsTailURL with
  | inl err => ((None, Some (parse_error err)), w)
  | inr u =>
      let start := wrap64 since in
      let '(err, (conn, w)) :=
        retry PowConv Int63n
          (fun d (st : option Conn * W) => (st.1, time_Sleep d st.2))
          (dial u referenceID start)
          (NewRand w) 3 (5 * Second) (2 * Minute) (None, w) in
      match err with
      | Some _ => ((None, err), w)
      | None => ((conn, None), w)
      end
  end.

(** How a run of [StreamLogsToLogger] ends: it returns, it dereferences
    a nil connection, or it is still reading when the fuel runs out. *)
Inductive outcome :=
| Returned (err : option E)
| NilConn
| Reading.

(** The [for] loop of [StreamLogsToLogger]. *)
Fixpoint read_loop (fuel : nat) (referenceID : string)
    (conn : option Conn) (w : W) : outcome * W :=
  match fuel with
  | O => (Reading, w)
  | S fuel =>
      match conn with
      | None => (NilConn, w)
      | Some c =>
          let '((message, err), w) := ReadMessage c w in
          let '(done, w) := ctxDone w in
          if done : bool then (Returned None, w)
          else
            match err with
            | Some e =>
                let w := warn_read_error e w in
                let '((newconn, errd), w) :=
                  logtailConn referenceID (TimeOrNow (Now w) (latest w)) w in
                match errd with
                | None => read_loop fuel referenceID newconn w
                | Some _ => (Returned err, w)
                end
            | None =>
                let '(sent, w) := forward message w in
                if sent : bool then read_loop fuel referenceID conn w
                else (Returned None, w)
            end
      end
  end.

End Tail.

(** ** Entry point and consumer *)

Section Stream.

Context {W E Rng Conn URL Message : Type}.

Variable PowConv : Z -> Z -> Z.
Variable Int63n : Z -> Rng -> Z * Rng.
Variable NewRand : W -> Rng.
Variable Now : W -> Z.
Variable time_Sleep : Z -> W -> W.
Variable LogsTailURL : E + URL.
Variable parse_error : E -> E.
Variable DialContext : URL -> string -> Z -> W -> (E + Conn) * W.
Variable ReadMessage : Conn -> W -> (Message * option E) * W.
Variable ctxDone : W -> bool * W.
Variable warn_read_error : E -> W -> W.
Variable latest : W -> timestampTrack.
Variable forward : Message -> W -> bool * W.

(** [(c *Config) StreamLogsToLogger(ctx, logger, referenceID, tailFrom)]
    as its caller sees it: the first dial, then the read loop.  The two
    goroutines it starts act on the world between the reader's steps. *)
Definition StreamLogsToLogger (fuel : nat) (referenceID : string)
    (tailFrom : Z) (w : W) : outcome (E := E) * W :=
  let '((conn, err), w) :=
    logtailConn PowConv Int63n NewRand time_Sleep LogsTailURL parse_error
      DialContext referenceID (Now w + wrap64 (- tailFrom)) w in
  match err with
  | Some _ => (Returned err, w)
  | None =>
      read_loop PowConv Int63n NewRand Now time_Sleep LogsTailURL
        parse_error DialContext ReadMessage ctxDone warn_read_error
        latest forward fuel referenceID conn w
  end.

(** [easyjson.Unmarshal(message, &m)] *)
Variable Unmarshal : Message -> E + msg.

Variable ParseLevel : string -> option logrus.Level.

(** [logger.WithError(err).Errorf("couldn't unmarshal a message from the
    cloud: %s", string(message))] *)
Variable log_unmarshal_error : E -> Message -> logrus.Sink -> logrus.Sink.

(** Body of the consumer's scan for the most recent timestamp. *)
Definition latest_step (ts : Z) (stream : msgStreams) : Z :=
  let sts := LatestTimestamp stream in
  if ts <? sts then sts else ts.

(** The scan over the streams of a batch, from [var ts int64]. *)
Definition latest_of (streams : list msgStreams) : Z :=
  fold_left latest_step streams 0.

(** Body of the consumer goroutine's loop over [msgBuffer]: the state is
    the logger and the tracker [latest]. *)
Definition consume (st : logrus.Sink * timestampTrack) (message : Message)
    : logrus.Sink * timestampTrack :=
  let '(logger, latest) := st in
  match Unmarshal message with
  | inl err => (log_unmarshal_error err message logger, latest)
  | inr m =>
      let logger := Log ParseLevel m logger in
      let ts := latest_of (Streams m) in
      (logger, Set_ latest ts)
  end.

(** The consumer goroutine over the messages it receives until
    [msgBuffer] is closed. *)
Definition consumer (messages : list Message)
    (st : logrus.Sink * timestampTrack) : logrus.Sink * timestampTrack :=
  fold_left consume messages st.

End Stream.

End cloudapi.

(** ** The InfluxDB output: tags turned into fields, points of a batch *)

Module influxdb.

(** [strconv.ParseBool] *)
Definition ParseBool (str : string) : option bool :=
  if String.eqb str "1" || String.eqb str "t" || String.eqb str "T"
     || String.eqb str "true" || String.eqb str "TRUE" || String.eqb str "True"
  then Some true
  else if String.eqb str "0" || String.eqb str "f" || String.eqb str "F"
          || String.eqb str "false" || String.eqb str "FALSE"
          || String.eqb str "False"
  then Some false
  else None.

(** [FieldKind] is an [int]; its constants [String], [Int], [Float] and
    [Bool] are numbered from 0 by [iota]. *)
Abbreviation FieldKind := Z (only parsing).
Definition KindString : FieldKind := 0.
Definition KindInt : FieldKind := 1.
Definition KindFloat : FieldKind := 2.
Definition KindBool : FieldKind := 3.

(** A field value, an [interface{}]: nil, a string, a bool, a float64 or
    an int64.  [F] stands for float64. *)
Inductive value (F : Type) :=
| VNil
| VString (s : string)
| VBool (b : bool)
| VFloat (f : F)
| VInt (i : Z).
Arguments VNil {F}.
Arguments VString {F} s.
Arguments VBool {F} b.
Arguments VFloat {F} f.
Arguments VInt {F} i.

(** [stats.Sample], with the pointer [Tags] as an address. *)
Record Sample (F : Type) := mkSample {
  MetricName : string;
  Tags : positive;
  Value : F;
  Time : Z
}.
Arguments mkSample {F} MetricName Tags Value Time.
Arguments MetricName {F} s.
Arguments Tags {F} s.
Arguments Value {F} s.
Arguments Time {F} s.

(** The arguments a point is made of by [client.NewPoint]. *)
Record Point (F : Type) := NewPoint {
  p_measurement : string;
  p_tags : gmap string string;
  p_fields : gmap string (value F);
  p_time : Z
}.
Arguments NewPoint {F} p_measurement p_tags p_fields p_time.
Arguments p_measurement {F} p.
Arguments p_tags {F} p.
Arguments p_fields {F} p.
Arguments p_time {F} p.

Section Output.

Context {F : Type}.

(** [strconv.ParseFloat(val, 64)] *)
Variable ParseFloat : string -> option F.

(** [o.fieldKinds] *)
Variable fieldKinds : gmap string FieldKind.

(** [(tags *stats.SampleTags) CloneTags()]: a fresh copy of the tags found
    at an address. *)
Variable CloneTags : positive -> gmap string string.

(** The [switch] of [extractTagsToValues] and the test of its error: the
    value stored for a tag [val] of kind [kind].  [parsed] is the value [v]
    when [err] is nil. *)
Definition field_value (kind : FieldKind) (val : string) : value F :=
  let parsed : option (value F) :=
    if kind =? KindString then Some (VString val)
    else if kind =? KindBool then VBool <$> ParseBool val
    else if kind =? KindFloat then VFloat <$> ParseFloat val
    else if kind =? KindInt then
      match strconv.ParseInt val with
      | (i, None) => Some (VInt i)
      | (_, Some _) => None
      end
    else Some VNil in
  match parsed with
  | Some v => v
  | None => VString val
  end.

(** [(o *Output) extractTagsToValues(tags, values)]: both maps are written
    in place, so both are returned. *)
Definition extractTagsToValues (tags : gmap string string)
    (values : gmap string (value F))
    : gmap string string * gmap string (value F) :=
  map_fold
    (fun tag kind (st : gmap string string * gmap string (value F)) =>
       let '(tags, values) := st in
       match tags !! tag with
       | Some val => (delete tag tags, <[tag := field_value kind val]> values)
       | None => (tags, values)
       end)
    (tags, values) fieldKinds.

(** [cacheItem] and the cache of [batchFromSamples], keyed by the address
    of the tags. *)
Abbreviation cacheItem := (gmap string string * gmap string (value F))%type.

(** Body of the inner loop of [batchFromSamples].  On a miss the cache
    keeps the map [values] itself, not a copy: the entry is the map as the
    assignment of ["value"] below leaves it. *)
Definition batch_sample (st : gmap positive cacheItem * list (Point F))
    (sample : Sample F) : gmap positive cacheItem * list (Point F) :=
  let '(cache, points) := st in
  let '(tags, values, cache) :=
    match cache !! Tags sample with
    | Some (ctags, cvalues) =>
        (ctags,
         map_fold (fun k v (values : gmap string (value F)) => <[k := v]> values)
           ∅ cvalues,
         cache)
    | None =>
        let '(tags, values) := extractTagsToValues (CloneTags (Tags sample)) ∅ in
        (tags, values,
         <[Tags sample := (tags, <["value"%string := VFloat (Value sample)]> values)]>
           cache)
    end in
  let values := <["value"%string := VFloat (Value sample)]> values in
  (cache,
   points ++ [NewPoint (MetricName sample) tags values (Time sample)]).

(** [(o *Output) batchFromSamples(containers)]; a container is the list
    its [GetSamples] returns. *)
Definition batchFromSamples (containers : list (list (Sample F)))
    : list (Point F) :=
  (fold_left (fun st samples => fold_left batch_sample samples st)
     containers (∅, [])).2.

End Output.

End influxdb.

(** * Observations

    Definitions the statements below are written with. *)

Module observe.

Import Int cloudapi.

(** The records one stream of a batch adds to the sink. *)
Definition stream_records (ParseLevel : string -> option logrus.Level)
    (stream : msgStreams) : list logrus.LogRecord :=
  (log_stream ParseLevel (""%string, []) stream).2.

(** The records one [(timestamp, text)] pair adds to the sink. *)
Definition value_records (ParseLevel : string -> option logrus.Level)
    (fields : logrus.Fields) (level : string) (value : string * string)
    : list logrus.LogRecord :=
  log_value ParseLevel fields level [] value.

(** The record one dropped entry adds to the sink. *)
Definition dropped_records (dropped : msgDroppedEntries)
    : list logrus.LogRecord :=
  log_dropped [] dropped.

(** A call on a tracker: [Set(ts)], or [TimeOrNow()] at a reading of the
    clock. *)
Inductive track_call :=
| CallSet (ts : Z)
| CallTimeOrNow (now : Z).

(** One call on a tracker: the tracker after it and the time returned. *)
Definition track_step (tst : timestampTrack) (c : track_call)
    : timestampTrack * option Z :=
  match c with
  | CallSet ts => (Set_ tst ts, None)
  | CallTimeOrNow now => (tst, Some (TimeOrNow now tst))
  end.

(** The tracker after a sequence of calls. *)
Definition track_run (calls : list track_call) (tst : timestampTrack)
    : timestampTrack :=
  fold_left (fun tst c => (track_step tst c).1) calls tst.

(** No call of the sequence is a [Set] with a positive timestamp. *)
Definition no_positive_set (calls : list track_call) : bool :=
  forallb (fun c => match c with CallSet ts => ts <? 1 | CallTimeOrNow _ => true end)
    calls.

(** What a run of [retry] does with its collaborators: a sleep of some
    duration, or a call of the retried function with its result. *)
Inductive retry_call (E : Type) :=
| Slept (d : Z)
| Did (err : option E).
Arguments Slept {E} d.
Arguments Did {E} err.

Section Traced.

Context {W E Rng : Type}.

(** A sleeper that also records its call. *)
Definition traced_Sleep (Sleep : Z -> W -> W) (d : Z)
    (st : W * list (retry_call E)) : W * list (retry_call E) :=
  (Sleep d st.1, st.2 ++ [Slept d]).

(** A retried function that also records its call. *)
Definition traced_do (do : W -> option E * W)
    (st : W * list (retry_call E)) : option E * (W * list (retry_call E)) :=
  let '(err, w) := do st.1 in
  (err, (w, st.2 ++ [Did err])).




End Traced.

(** The number a string of decimal digits denotes, continuing from the
    digits read so far; nothing when a byte is not a digit. *)
Fixpoint digits_value (s : string) (acc : Z) : option Z :=
  match s with
  | EmptyString => Some acc
  | String c s' =>
      match strconv.digit c with
      | Some d => digits_value s' (10 * acc + d)
      | None => None
      end
  end.

(** The integer a decimal numeral denotes: an optional sign and at least
    one digit, nothing else. *)
Definition decimal (s : string) : option Z :=
  match s with
  | EmptyString => None
  | String c rest =>
      if Ascii.eqb c "+" then
        match rest with
        | EmptyString => None
        | _ => digits_value rest 0
        end
      else if Ascii.eqb c "-" then
        match rest with
        | EmptyString => None
        | _ => Z.opp <$> digits_value rest 0
        end
      else digits_value s 0
  end.

(** How many records [Log] emits for each value of a stream: one when the
    level of the stream parses, two when it does not. *)
Definition records_per_value (ParseLevel : string -> option logrus.Level)
    (stream : msgStreams) : nat :=
  match ParseLevel (default ""%string (Stream stream !! "level"%string)) with
  | Some _ => 1
  | None => 2
  end.


(** A call of the sleeper, if that is what [c] is, asks for at most
    [max]. *)
Definition sleep_at_most {E : Type} (max : Z) (c : retry_call E) : Prop :=
  match c with
  | Slept d => d <= max
  | Did _ => True
  end.

(** A sample network for the examples: the world counts the dials made; a
    dial is refused until [limit] dials were made and then gives
    connection 9; every read fails with a reset. *)
Definition sample_dial (limit : nat) (_ : unit) (_ : string) (_ : Z) (w : nat)
    : (string + nat) * nat :=
  if (w <? limit)%nat then (inl "refused"%string, S w) else (inr 9%nat, S w).

Definition sample_read (_ : nat) (w : nat) : (unit * option string) * nat :=
  ((tt, Some "reset"%string), w).

(** What the read loop does with the connection and the buffer: a read
    with its result, or a message offered to the buffer and whether it was
    taken. *)
Inductive loop_event (Message E : Type) :=
| EvRead (message : Message) (err : option E)
| EvForward (message : Message) (sent : bool).
Arguments EvRead {Message E} message err.
Arguments EvForward {Message E} message sent.

Section TracedLoop.

Context {W E Rng Conn URL Message : Type}.

Abbreviation trace := (list (loop_event Message E)).

(** A read that also records its result. *)
Definition traced_Read (ReadMessage : Conn -> W -> (Message * option E) * W)
    (c : Conn) (st : W * trace) : (Message * option E) * (W * trace) :=
  let '(res, w) := ReadMessage c st.1 in
  (res, (w, st.2 ++ [EvRead res.1 res.2])).

(** A hand-over to the buffer that also records its outcome. *)
Definition traced_forward (forward : Message -> W -> bool * W)
    (message : Message) (st : W * trace) : bool * (W * trace) :=
  let '(sent, w) := forward message st.1 in
  (sent, (w, st.2 ++ [EvForward message sent])).

(** An operation on the world, on the world with its record. *)
Definition lifted {A : Type} (f : W -> A * W) (st : W * trace)
    : A * (W * trace) :=
  let '(a, w) := f st.1 in
  (a, (w, st.2)).

(** The read loop over the world with its record. *)
Definition traced_loop (PowConv : Z -> Z -> Z) (Int63n : Z -> Rng -> Z * Rng)
    (NewRand : W -> Rng) (Now : W -> Z) (time_Sleep : Z -> W -> W)
    (LogsTailURL : E + URL) (parse_error : E -> E)
    (DialContext : URL -> string -> Z -> W -> (E + Conn) * W)
    (ReadMessage : Conn -> W -> (Message * option E) * W)
    (ctxDone : W -> bool * W) (warn_read_error : E -> W -> W)
    (latest : W -> timestampTrack) (forward : Message -> W -> bool * W)
    : nat -> string -> option Conn -> W * trace -> outcome (E := E) * (W * trace) :=
  read_loop PowConv Int63n
    (fun st => NewRand st.1) (fun st => Now st.1)
    (fun d st => (time_Sleep d st.1, st.2))
    LogsTailURL parse_error
    (fun u referenceID start => lifted (DialContext u referenceID start))
    (traced_Read ReadMessage) (lifted ctxDone)
    (fun e st => (warn_read_error e st.1, st.2))
    (fun st => latest st.1)
    (traced_forward forward).

(** The messages the buffer took, in order. *)
Definition forwarded (tr : trace) : list Message :=
  omap (fun ev => match ev with
                  | EvForward message true => Some message
                  | _ => None
                  end) tr.

(** The messages read without an error, in order. *)
Definition read_ok (tr : trace) : list Message :=
  omap (fun ev => match ev with
                  | EvRead message None => Some message
                  | _ => None
                  end) tr.

End TracedLoop.

(** The point [batchFromSamples] is to make of a sample: the tags found at
    the address of its tags, less those turned into fields, and the fields
    with the value of the sample. *)
Definition point_of {F : Type} (ParseFloat : string -> option F)
    (fieldKinds : gmap string Z) (CloneTags : positive -> gmap string string)
    (sample : influxdb.Sample F) : influxdb.Point F :=
  let '(tags, values) :=
    influxdb.extractTagsToValues ParseFloat fieldKinds
      (CloneTags (influxdb.Tags sample)) ∅ in
  influxdb.NewPoint (influxdb.MetricName sample) tags
    (<["value"%string := influxdb.VFloat (influxdb.Value sample)]> values)
    (influxdb.Time sample).

(** Every entry of the cache of [batchFromSamples] holds what a miss at
    its address computes, with the value of some sample written over it. *)
Definition cache_ok {F : Type} (ParseFloat : string -> option F)
    (fieldKinds : gmap string Z) (CloneTags : positive -> gmap string string)
    (cache : gmap positive
               (gmap string string * gmap string (influxdb.value F))) : Prop :=
  forall ptr ctags cvalues,
    cache !! ptr = Some (ctags, cvalues) ->
    exists v0 : F,
      ctags = (influxdb.extractTagsToValues ParseFloat fieldKinds
                 (CloneTags ptr) ∅).1
      /\ cvalues = <["value"%string := influxdb.VFloat v0]>
                     (influxdb.extractTagsToValues ParseFloat fieldKinds
                        (CloneTags ptr) ∅).2.

End observe.

(** * Properties *)

Import Int cloudapi observe.

(** ** Machine integers *)

Lemma wrap64_range (x : Z) : in_int64 (wrap64 x).
Proof.
  unfold in_int64, wrap64, MinInt64, MaxInt64, two64, two63.
  pose proof (Z.mod_pos_bound (x + 2 ^ 63) (2 ^ 64) ltac:(lia)). lia.
Qed.

Lemma wrap64_id (x : Z) : in_int64 x -> wrap64 x = x.
Proof.
  unfold in_int64, wrap64, MinInt64, MaxInt64, two64, two63. intros H.
  rewrite Z.mod_small by lia. lia.
Qed.

Lemma wrap64_idem (x : Z) : wrap64 (wrap64 x) = wrap64 x.
Proof. apply wrap64_id, wrap64_range. Qed.

(** ** strconv *)

Lemma ParseInt_range (s : string) : in_int64 (strconv.ParseInt s).1.
Proof.
  assert (Hz : in_int64 0) by (unfold in_int64, MinInt64, MaxInt64, two63; lia).
  unfold strconv.ParseInt. destruct s as [|c rest]; [exact Hz|].
  set (p := if Ascii.eqb c "+" then _ else _). destruct p as [neg s1].
  destruct (strconv.ParseUint s1) as [un [[]|]]; simpl; try exact Hz;
    repeat (match goal with |- context [if ?b then _ else _] => destruct b end;
            simpl; try apply wrap64_range).
Qed.

Lemma Atoi_range (s : string) : in_int64 (strconv.Atoi s).1.
Proof. apply ParseInt_range. Qed.

Lemma wrap64_Atoi (s : string) : wrap64 (strconv.Atoi s).1 = (strconv.Atoi s).1.
Proof. apply wrap64_id, Atoi_range. Qed.



(** ** Rendering *)

Lemma labelsToLogrusFields_id (labels : gmap string string) :
  labelsToLogrusFields labels = labels.
Proof.
  unfold labelsToLogrusFields.
  apply (map_fold_weak_ind (fun r m => r = m)); [done|].
  intros i x m r _ ->. done.
Qed.

Section RenderFacts.

Variable ParseLevel : string -> option logrus.Level.

Lemma log_value_app fields level logger value :
  log_value ParseLevel fields level logger value
  = logger ++ value_records ParseLevel fields level value.
Proof.
  unfold value_records, log_value.
  destruct (ParseLevel level); simpl; [done|]. by rewrite <- app_assoc.
Qed.

Lemma fold_log_value fields level values logger :
  fold_left (log_value ParseLevel fields level) values logger
  = logger ++ concat (map (value_records ParseLevel fields level) values).
Proof.
  revert logger. induction values as [|v values IH]; intros logger; simpl.
  - by rewrite app_nil_r.
  - rewrite IH, log_value_app. by rewrite <- app_assoc.
Qed.

(** The level and the fields a stream is logged with. *)
Lemma stream_records_eq stream :
  stream_records ParseLevel stream
  = concat (map (value_records ParseLevel
                   (delete "level"%string (Stream stream))
                   (default ""%string (Stream stream !! "level"%string)))
              (Values stream)).
Proof.
  unfold stream_records, log_stream. rewrite labelsToLogrusFields_id.
  destruct (Stream stream !! "level"%string) as [l|] eqn:Hl; simpl.
  - by rewrite fold_log_value.
  - rewrite fold_log_value. simpl. by rewrite delete_id.
Qed.

Lemma log_stream_records st stream :
  (log_stream ParseLevel st stream).2 = st.2 ++ stream_records ParseLevel stream.
Proof.
  destruct st as [level logger]. unfold stream_records, log_stream. simpl.
  destruct (Stream stream !! "level"%string); simpl;
    rewrite !fold_log_value; done.
Qed.

Lemma fold_log_stream streams st :
  (fold_left (log_stream ParseLevel) streams st).2
  = st.2 ++ concat (map (stream_records ParseLevel) streams).
Proof.
  revert st. induction streams as [|s streams IH]; intros st; simpl.
  - by rewrite app_nil_r.
  - rewrite IH, log_stream_records. by rewrite <- app_assoc.
Qed.

Lemma fold_log_dropped entries logger :
  fold_left log_dropped entries logger
  = logger ++ concat (map dropped_records entries).
Proof.
  revert logger. induction entries as [|d entries IH]; intros logger; simpl.
  - by rewrite app_nil_r.
  - rewrite IH. unfold dropped_records, log_dropped. simpl.
    by rewrite <- app_assoc.
Qed.

(** What [Log] appends to the sink: the records of each stream in turn,
    then those of each dropped entry. *)
Lemma Log_records m logger :
  Log ParseLevel m logger
  = logger ++ concat (map (stream_records ParseLevel) (Streams m))
           ++ concat (map dropped_records (DroppedEntries m)).
Proof.
  unfold Log.
  pose proof (fold_log_stream (Streams m) (""%string, logger)) as H.
  destruct (fold_left _ (Streams m) _) as [level logger']. simpl in H.
  subst logger'. rewrite fold_log_dropped. by rewrite <- app_assoc.
Qed.

End RenderFacts.

Section Render.

Variable ParseLevel : string -> option logrus.Level.

(** A batch is rendered stream by stream: the records of the streams
    before one stream, the records of that stream, the rest. *)
Lemma Log_split pre stream post dropped logger :
  Log ParseLevel (mkMsg (pre ++ stream :: post) dropped) logger
  = Log ParseLevel (mkMsg pre []) logger
    ++ stream_records ParseLevel stream
    ++ Log ParseLevel (mkMsg post dropped) [].
Proof.
  rewrite !Log_records. simpl.
  rewrite map_app, concat_app. simpl. rewrite !app_nil_r.
  by rewrite <- !app_assoc.
Qed.

Lemma value_records_parsed fields level lvl value :
  ParseLevel level = Some lvl ->
  value_records ParseLevel fields level value
  = [logrus.mkLogRecord lvl fields (strconv.Atoi value.1).1 value.2].
Proof.
  intros H. unfold value_records, log_value. rewrite H. simpl.
  by rewrite wrap64_Atoi.
Qed.

Lemma value_records_unknown fields level value :
  ParseLevel level = None ->
  value_records ParseLevel fields level value
  = [logrus.mkLogRecord logrus.InfoLevel fields (strconv.Atoi value.1).1 value.2;
     logrus.mkLogRecord logrus.WarnLevel fields (strconv.Atoi value.1).1
       ("last message had unknown level " +:+ level)].
Proof.
  intros H. unfold value_records, log_value. rewrite H. simpl.
  by rewrite wrap64_Atoi.
Qed.

(** C6: a stream with a [level] label is logged without that label in its
    fields.  When the label parses as a level, each of its values gives
    exactly one record at that level; when it does not, each value gives
    one record at the info level followed by one warning that names the
    unknown level string. *)
Theorem Log_level_label pre stream post dropped logger (l : string) :
  Stream stream !! "level"%string = Some l ->
  let fields := delete "level"%string (Stream stream) in
  let time (v : string * string) := (strconv.Atoi v.1).1 in
  fields !! "level"%string = None /\
  Log ParseLevel (mkMsg (pre ++ stream :: post) dropped) logger
  = Log ParseLevel (mkMsg pre []) logger
    ++ match ParseLevel l with
       | Some lvl =>
           map (fun v => logrus.mkLogRecord lvl fields (time v) v.2)
             (Values stream)
       | None =>
           concat (map (fun v =>
               [logrus.mkLogRecord logrus.InfoLevel fields (time v) v.2;
                logrus.mkLogRecord logrus.WarnLevel fields (time v)
                  ("last message had unknown level " +:+ l)])
             (Values stream))
       end
    ++ Log ParseLevel (mkMsg post dropped) [].
Proof.
  intros Hl fields time. split; [apply lookup_delete_eq|].
  rewrite Log_split, stream_records_eq, Hl. simpl.
  do 2 f_equal. destruct (ParseLevel l) as [lvl|] eqn:Hp.
  - induction (Values stream) as [|v vs IH]; simpl; [done|].
    rewrite IH. by rewrite (value_records_parsed _ _ lvl).
  - f_equal. apply map_ext. intros v. by apply value_records_unknown.
Qed.

(** C7: rendering is a homomorphism over the streams of a batch.  The
    level left in the loop variable by the streams before has no effect on
    the records of a stream, and the records of a stream inside a batch
    are those of the batch made of that stream alone. *)
Theorem Log_per_stream pre stream post dropped logger (level1 level2 : string) :
  (log_stream ParseLevel (level1, logger) stream).2
  = (log_stream ParseLevel (level2, logger) stream).2
  /\ Log ParseLevel (mkMsg (pre ++ stream :: post) dropped) logger
     = Log ParseLevel (mkMsg pre []) logger
       ++ Log ParseLevel (mkMsg [stream] []) []
       ++ Log ParseLevel (mkMsg post dropped) [].
Proof.
  split.
  - by rewrite !log_stream_records.
  - rewrite Log_split. reflexivity.
Qed.

(** C8: the records of a stream come in the order of its values.  They
    split into one group per value, in the order of [Values]; the group of
    a value starts with the record carrying its text and its time, and
    holds nothing else but the warning about an unknown level. *)
Theorem Log_values_in_order pre stream post dropped logger :
  exists groups : list (list logrus.LogRecord),
    Log ParseLevel (mkMsg (pre ++ stream :: post) dropped) logger
    = Log ParseLevel (mkMsg pre []) logger
      ++ concat groups
      ++ Log ParseLevel (mkMsg post dropped) []
    /\ Forall2
         (fun (v : string * string) group =>
            exists r rest,
              group = r :: rest
              /\ logrus.r_msg r = v.2
              /\ logrus.r_time r = (strconv.Atoi v.1).1
              /\ (rest = []
                  \/ exists level,
                       rest = [logrus.mkLogRecord logrus.WarnLevel
                                 (logrus.r_fields r) (logrus.r_time r)
                                 ("last message had unknown level " +:+ level)]))
         (Values stream) groups.
Proof.
  set (fields := delete "level"%string (Stream stream)).
  set (level := default ""%string (Stream stream !! "level"%string)).
  exists (map (value_records ParseLevel fields level) (Values stream)).
  split.
  - by rewrite Log_split, stream_records_eq.
  - induction (Values stream) as [|v vs IH]; simpl; constructor; [|exact IH].
    destruct (ParseLevel level) as [lvl|] eqn:Hp.
    + rewrite (value_records_parsed _ _ lvl) by done.
      eexists _, _. repeat split. by left.
    + rewrite value_records_unknown by done.
      eexists _, _. repeat split. right. by exists level.
Qed.

End Render.

Section Timestamps.

Variable ParseLevel : string -> option logrus.Level.



End Timestamps.


(** ** The tracker *)

Lemma track_run_app calls1 calls2 tst :
  track_run (calls1 ++ calls2) tst = track_run calls2 (track_run calls1 tst).
Proof. unfold track_run. apply fold_left_app. Qed.

Lemma track_run_no_positive calls tst :
  no_positive_set calls = true -> track_run calls tst = tst.
Proof.
  induction calls as [|c calls IH]; simpl; [done|].
  intros [Hc Hcalls]%andb_prop. unfold track_run in *. simpl.
  destruct c as [x|now]; simpl.
  - unfold Set_. rewrite Hc. by apply IH.
  - by apply IH.
Qed.

(** C3: calls on a tracker.  Calls that are not a [Set] with a positive
    timestamp leave any tracker as it is; a [Set] with a positive timestamp
    overwrites whatever was stored, larger or not; [TimeOrNow] gives the
    clock on a tracker that never stored a positive timestamp, and otherwise
    the last positive timestamp stored plus one millisecond. *)
Theorem timestampTrack_calls (pre post : list track_call) (x now : Z)
    (tst0 : timestampTrack) :
  1 <= x ->
  no_positive_set post = true ->
  track_run post tst0 = tst0
  /\ Set_ tst0 x = mkTrack x
  /\ TimeOrNow now (track_run post (mkTrack 0)) = now
  /\ ts (track_run (pre ++ CallSet x :: post) (mkTrack 0)) = x
  /\ TimeOrNow now (track_run (pre ++ CallSet x :: post) (mkTrack 0))
     = x + 1 * Millisecond.
Proof.
  intros Hx Hpost.
  assert (Hset : forall tst, Set_ tst x = mkTrack x).
  { intros tst. unfold Set_. destruct (x <? 1) eqn:E; [lia|done]. }
  assert (Hrun : track_run (pre ++ CallSet x :: post) (mkTrack 0) = mkTrack x).
  { rewrite track_run_app. change (CallSet x :: post) with ([CallSet x] ++ post).
    rewrite track_run_app, (track_run_no_positive post) by done.
    unfold track_run at 1. simpl. apply Hset. }
  repeat split.
  - by apply track_run_no_positive.
  - apply Hset.
  - by rewrite track_run_no_positive.
  - by rewrite Hrun.
  - rewrite Hrun. unfold TimeOrNow. simpl. destruct (0 <? x) eqn:E; [done|lia].
Qed.

Lemma timestampTrack_calls_witness :
  let pre := [CallSet 2000; CallTimeOrNow 5] in
  let post := [CallSet 0; CallSet (-5); CallTimeOrNow 9] in
  ts (track_run (pre ++ CallSet 1000 :: post) (mkTrack 0)) = 1000
  /\ TimeOrNow 77 (track_run (pre ++ CallSet 1000 :: post) (mkTrack 0)) = 1001000.
Proof.
  intros pre post.
  apply (timestampTrack_calls pre post 1000 77 (mkTrack 2000)).
  - lia.
  - reflexivity.
Defined.

(** ** The consumer *)

Section Consumer.

Context {E Message : Type}.
Variable Unmarshal : Message -> E + msg.
Variable ParseLevel : string -> option logrus.Level.
Variable log_unmarshal_error : E -> Message -> logrus.Sink -> logrus.Sink.

(** The latest timestamp of a stream is read from its first value: the
    number its timestamp parses to, and 0 without a value or when the
    timestamp does not parse. *)
Lemma LatestTimestamp_first labels (values : list (string * string)) :
  LatestTimestamp (mkStreams labels values)
  = match values with
    | [] => 0
    | value :: _ =>
        if (strconv.ParseInt value.1).2 is None
        then (strconv.ParseInt value.1).1 else 0
    end.
Proof.
  unfold LatestTimestamp. simpl. destruct values as [|value values]; [done|].
  by destruct (strconv.ParseInt value.1) as [unix [err|]].
Qed.




End Consumer.


(** ** Retry *)


Section RetryFacts.

Context {W E Rng : Type}.
Variable PowConv : Z -> Z -> Z.
Variable Int63n : Z -> Rng -> Z * Rng.
Variable Sleep : Z -> W -> W.
Variable do : W -> option E * W.

Let tSleep := traced_Sleep (E := E) Sleep.


End RetryFacts.

Section RetryProps.

Context {W E Rng : Type}.
Variable PowConv : Z -> Z -> Z.
Variable Int63n : Z -> Rng -> Z * Rng.
Variable Sleep : Z -> W -> W.
Variable do : W -> option E * W.


(** C10: with no attempt allowed, [retry] returns nil at once: whatever
    the sleeper and the retried function are, the world is left as it was,
    and the record of their calls stays empty. *)
Theorem retry_zero_attempts (r : Rng) (interval max : Z) (w : W) :
  retry PowConv Int63n Sleep do r 0 interval max w = (None, w)
  /\ retry PowConv Int63n (traced_Sleep Sleep) (traced_do do)
       r 0 interval max (w, [])
     = (None, (w, [])).
Proof. split; reflexivity. Qed.

(** C1, at a number of attempts that does not fit [int]: [int(attempts)]
    is negative there, the loop is not entered, and [retry] returns nil
    without a single call of the retried function. *)
Theorem retry_attempts_overflow (r : Rng) (interval max : Z) (w : W) :
  retry PowConv Int63n Sleep do r (2 ^ 63) interval max w = (None, w)
  /\ retry PowConv Int63n (traced_Sleep Sleep) (traced_do do)
       r (2 ^ 63) interval max (w, [])
     = (None, (w, [])).
Proof. split; reflexivity. Qed.

End RetryProps.

(** ** Backoff *)

Section Backoff.

Variable PowConv : Z -> Z -> Z.

Lemma baseSeconds_eq (interval : Z) :
  in_int64 interval -> baseSeconds interval = Z.abs (Z.quot interval Second).
Proof.
  intros Hr. unfold baseSeconds.
  assert (HS : Second = 1000000000) by reflexivity.
  pose proof (Z.quot_rem' interval Second) as Hqr.
  assert (Hrem : Z.abs (Z.rem interval Second) < Second)
    by (rewrite HS; apply Z.rem_bound_abs; lia).
  assert (Hsgn : 0 <= Z.rem interval Second * interval)
    by (apply Z.rem_sign_mul; lia).
  rewrite wrap64_id.
  - replace (interval - Z.rem interval Second)
      with (Z.quot interval Second * Second) by lia.
    rewrite Z.quot_mul by lia. reflexivity.
  - unfold in_int64, MinInt64, MaxInt64, two63 in *. nia.
Qed.

(** An interval of less than a second has a base of zero seconds. *)
Lemma baseSeconds_subsecond (interval : Z) :
  - Second < interval < Second -> baseSeconds interval = 0.
Proof.
  intros H. assert (HS : Second = 1000000000) by reflexivity.
  rewrite baseSeconds_eq
    by (unfold in_int64, MinInt64, MaxInt64, two63; lia).
  assert (Hq : Z.quot interval Second = 0)
    by (apply Z.quot_small_iff; lia).
  by rewrite Hq.
Qed.

(** While the sum fits int64, the sleep before attempt [i] lasts the
    [i]-th power of the base in seconds plus the jitter in milliseconds,
    or [max] when that is shorter. *)
Lemma backoff_in_range (base i jitter max : Z) :
  0 <= base -> 1 <= i -> 0 <= jitter < 1000 ->
  base ^ i * Second + 999 * Millisecond <= MaxInt64 ->
  backoff PowConv base i jitter max
  = Z.min (base ^ i * Second + jitter * Millisecond) max.
Proof.
  intros Hb Hi Hj Hfit.
  assert (HS : Second = 1000000000) by reflexivity.
  assert (HM : Millisecond = 1000000) by reflexivity.
  assert (Hpow : 0 <= base ^ i) by (apply Z.pow_nonneg; lia).
  unfold backoff, pow_duration.
  unfold MaxInt64, two63 in Hfit. rewrite HS, HM in *.
  destruct (base ^ i <? 2 ^ 53) eqn:Hlt; [|lia].
  rewrite !wrap64_id
    by (rewrite ?wrap64_id;
        unfold in_int64, MinInt64, MaxInt64, two63; lia).
  destruct (Z.ltb_spec max (base ^ i * 1000000000 + jitter * 1000000)); lia.
Qed.

Lemma backoff_subsecond (interval i jitter max : Z) :
  - Second < interval < Second -> 1 <= i -> 0 <= jitter < 1000 ->
  backoff PowConv (baseSeconds interval) i jitter max
  = Z.min (jitter * Millisecond) max.
Proof.
  intros Hs Hi Hj. rewrite baseSeconds_subsecond by done.
  assert (H0 : 0 ^ i = 0) by (apply Z.pow_0_l; lia).
  rewrite backoff_in_range; rewrite ?H0; [|lia|lia|lia|].
  - reflexivity.
  - vm_compute. discriminate.
Qed.

(** C4, where the power in nanoseconds leaves int64: with a base interval
    of 100000 seconds, three attempts that all fail and the jitter 7, the
    first sleep is capped at the two minutes of [max], and the second one
    is asked with a negative duration, where the formula gives [max]. *)
Theorem retry_backoff_overflow :
  (retry PowConv (fun _ (r : unit) => (7, r))
     (traced_Sleep (fun _ (w : unit) => w))
     (traced_do (fun w => (Some tt, w)))
     tt 3 (100000 * Second) (2 * Minute) (tt, [])).2.2
  = [Did (Some tt); Slept (2 * Minute); Did (Some tt);
     Slept (-8446744073702551616); Did (Some tt)]
  /\ Z.min (100000 ^ 2 * Second + 7 * Millisecond) (2 * Minute) = 2 * Minute.
Proof. split; reflexivity. Qed.

End Backoff.

(** ** Dialing and the read loop *)

Section RetrySteps.

Context {W E Rng : Type}.
Variable PowConv : Z -> Z -> Z.
Variable Int63n : Z -> Rng -> Z * Rng.
Variable Sleep : Z -> W -> W.
Variable do : W -> option E * W.

(** The first iteration of the loop calls without a sleep. *)
Lemma retry_loop_first n base max err r w :
  retry_loop PowConv Int63n Sleep do (S n) 0 base max err r w
  = let '(e, w') := do w in
    match e with
    | None => (None, w')
    | Some _ => retry_loop PowConv Int63n Sleep do n 1 base max e r w'
    end.
Proof. reflexivity. Qed.

(** A later iteration draws a number, sleeps and calls. *)
Lemma retry_loop_next n i base max err r w :
  0 < i ->
  retry_loop PowConv Int63n Sleep do (S n) i base max err r w
  = let '(jitter, r') := Int63n 1000 r in
    let '(e, w') := do (Sleep (backoff PowConv base i jitter max) w) in
    match e with
    | None => (None, w')
    | Some _ => retry_loop PowConv Int63n Sleep do n (i + 1) base max e r' w'
    end.
Proof.
  intros Hi. simpl. destruct (0 <? i) eqn:Hpos; [|lia].
  destruct (Int63n 1000 r) as [jitter r']. reflexivity.
Qed.

End RetrySteps.

Section ReadLoop.

Context {W E Rng Conn URL Message : Type}.
Variable PowConv : Z -> Z -> Z.
Variable Int63n : Z -> Rng -> Z * Rng.
Variable NewRand : W -> Rng.
Variable Now : W -> Z.
Variable time_Sleep : Z -> W -> W.
Variable LogsTailURL : E + URL.
Variable parse_error : E -> E.
Variable DialContext : URL -> string -> Z -> W -> (E + Conn) * W.
Variable ReadMessage : Conn -> W -> (Message * option E) * W.
Variable ctxDone : W -> bool * W.
Variable warn_read_error : E -> W -> W.
Variable latest : W -> timestampTrack.
Variable forward : Message -> W -> bool * W.

Let logtail :=
  logtailConn PowConv Int63n NewRand time_Sleep LogsTailURL parse_error
    DialContext.
Let loop :=
  read_loop PowConv Int63n NewRand Now time_Sleep LogsTailURL parse_error
    DialContext ReadMessage ctxDone warn_read_error latest forward.
Let sleep := fun d (st : option Conn * W) => (st.1, time_Sleep d st.2).

(** When the retried dial ends without an error after at least one call,
    the captured variable holds a connection. *)
Lemma dial_loop_conn u referenceID start base max n :
  forall i err0 r st conn w',
    retry_loop PowConv Int63n sleep (dial DialContext u referenceID start)
      n i base max err0 r st = (None, (conn, w')) ->
    (n = 0%nat /\ err0 = None) \/ exists c, conn = Some c.
Proof.
  induction n as [|n IH]; intros i err0 r st conn w'; simpl.
  - intros [= -> _]. by left.
  - intros H. right.
    destruct (if 0 <? i then _ else _) as [r1 [conn1 w1]].
    unfold dial at 1 in H.
    destruct (DialContext u referenceID start w1) as [[e|c] w2].
    + apply IH in H as [[_ [=]]|H]. exact H.
    + injection H as <- _. by exists c.
Qed.

(** A dial that returns no error returns a connection. *)
Lemma logtailConn_conn referenceID since w conn w' :
  logtail referenceID since w = ((conn, None), w') -> exists c, conn = Some c.
Proof.
  unfold logtail, logtailConn. destruct LogsTailURL as [err|u]; [done|].
  unfold retry. change (Z.to_nat (wrap64 3)) with 3%nat.
  destruct (retry_loop _ _ _ _ 3 _ _ _ _ _ _) as [[e|] [conn1 w1]] eqn:Hloop;
    [done|].
  intros [= <- <-].
  apply dial_loop_conn in Hloop as [[[=] _]|H]. exact H.
Qed.

(** Three dials that fail in a row, with one sleep before the second and
    one before the third, exhaust the retries: the dial returns the error
    of the third. *)
Lemma logtailConn_exhausted u referenceID since w e1 w1 j1 r1 e2 w2 j2 r2 e3 w3 :
  LogsTailURL = inr u ->
  DialContext u referenceID (wrap64 since) w = (inl e1, w1) ->
  Int63n 1000 (NewRand w) = (j1, r1) ->
  DialContext u referenceID (wrap64 since)
    (time_Sleep (backoff PowConv 5 1 j1 (2 * Minute)) w1) = (inl e2, w2) ->
  Int63n 1000 r1 = (j2, r2) ->
  DialContext u referenceID (wrap64 since)
    (time_Sleep (backoff PowConv 5 2 j2 (2 * Minute)) w2) = (inl e3, w3) ->
  logtail referenceID since w = ((None, Some e3), w3).
Proof.
  intros Hu H1 Hj1 H2 Hj2 H3. unfold logtail, logtailConn. rewrite Hu.
  unfold retry. change (Z.to_nat (wrap64 3)) with 3%nat.
  change (baseSeconds (5 * Second)) with 5.
  rewrite retry_loop_first. unfold dial at 1. rewrite H1.
  cbv beta iota zeta.
  rewrite retry_loop_next, Hj1 by lia. unfold dial at 1.
  cbv beta iota zeta. cbn [fst snd]. rewrite H2. cbv beta iota zeta.
  rewrite retry_loop_next, Hj2 by lia. unfold dial at 1.
  cbv beta iota zeta. cbn [fst snd]. change (1 + 1) with 2.
  rewrite H3. reflexivity.
Qed.

(** C2: a read that fails while the context is not done is followed by a
    fresh dial from the tracker's time.  When that dial returns an error,
    the loop returns the error of the read, whatever the error of the dial
    is; when it returns a connection, the loop goes on reading from that
    connection. *)
Theorem read_error_reconnect fuel referenceID c w message e w1 w2 :
  ReadMessage c w = ((message, Some e), w1) ->
  ctxDone w1 = (false, w2) ->
  let w3 := warn_read_error e w2 in
  match logtail referenceID (TimeOrNow (Now w3) (latest w3)) w3 with
  | ((_, Some errd), w4) =>
      loop (S fuel) referenceID (Some c) w = (Returned (Some e), w4)
  | ((newconn, None), w4) =>
      loop (S fuel) referenceID (Some c) w = loop fuel referenceID newconn w4
      /\ exists c', newconn = Some c'
  end.
Proof.
  intros Hread Hdone w3. unfold loop. simpl. rewrite Hread, Hdone.
  fold w3. fold logtail.
  destruct (logtail referenceID (TimeOrNow (Now w3) (latest w3)) w3)
    as [[newconn [errd|]] w4] eqn:Hdial.
  - reflexivity.
  - split; [reflexivity|]. eapply logtailConn_conn, Hdial.
Qed.

End ReadLoop.

Lemma read_error_reconnect_witness :
  let run :=
    read_loop (W := nat) (E := string) (Rng := unit) (Conn := nat)
      (URL := unit) (Message := unit)
      (fun _ _ => 0) (fun _ r => (7, r)) (fun _ => tt) (fun _ => 0)
      (fun _ w => w) (inr tt) (fun e => e)
      (fun _ _ _ w =>
         if (w <? 3)%nat then (inl "refused"%string, S w) else (inr 9%nat, S w))
      (fun _ w => ((tt, Some "reset"%string), w))
      (fun w => (false, w)) (fun _ w => w) (fun _ => mkTrack 0)
      (fun _ w => (true, w)) in
  run 1%nat "run"%string (Some 0%nat) 0%nat
  = (Returned (Some "reset"%string), 3%nat)
  /\ run 1%nat "run"%string (Some 0%nat) 1%nat
     = run 0%nat "run"%string (Some 9%nat) 4%nat.
Proof.
  intros run. split.
  - exact (read_error_reconnect (W := nat) (E := string) (Rng := unit)
             (Conn := nat) (URL := unit) (Message := unit)
             (fun _ _ => 0) (fun _ r => (7, r)) (fun _ => tt) (fun _ => 0)
             (fun _ w => w) (inr tt) (fun e => e)
             (fun _ _ _ w =>
                if (w <? 3)%nat then (inl "refused"%string, S w)
                else (inr 9%nat, S w))
             (fun _ w => ((tt, Some "reset"%string), w))
             (fun w => (false, w)) (fun _ w => w) (fun _ => mkTrack 0)
             (fun _ w => (true, w))
             0%nat "run"%string 0%nat 0%nat tt "reset"%string 0%nat 0%nat
             eq_refl eq_refl).
  - exact (proj1
            (read_error_reconnect (W := nat) (E := string) (Rng := unit)
               (Conn := nat) (URL := unit) (Message := unit)
               (fun _ _ => 0) (fun _ r => (7, r)) (fun _ => tt) (fun _ => 0)
               (fun _ w => w) (inr tt) (fun e => e)
               (fun _ _ _ w =>
                  if (w <? 3)%nat then (inl "refused"%string, S w)
                  else (inr 9%nat, S w))
               (fun _ w => ((tt, Some "reset"%string), w))
               (fun w => (false, w)) (fun _ w => w) (fun _ => mkTrack 0)
               (fun _ w => (true, w))
               0%nat "run"%string 0%nat 1%nat tt "reset"%string 1%nat 1%nat
               eq_refl eq_refl)).
Defined.

Lemma Log_level_label_witness :
  let stream :=
    mkStreams {[ "level" := "warn"; "job" := "x" ]}%string
      [("200", "hello")]%string in
  Log logrus.ParseLevel (mkMsg [stream] []) []
  = [logrus.mkLogRecord logrus.WarnLevel {[ "job" := "x" ]}%string 200 "hello"].
Proof.
  intros stream.
  pose proof (Log_level_label logrus.ParseLevel [] stream [] [] [] "warn"
                eq_refl) as [_ H].
  vm_compute in H. vm_compute. exact H.
Defined.

(** ** Decimal numerals *)

Lemma digit_range c d : strconv.digit c = Some d -> 0 <= d <= 9.
Proof.
  unfold strconv.digit.
  destruct (48 <=? Z.of_N (N_of_ascii c)) eqn:H1;
    destruct (Z.of_N (N_of_ascii c) <=? 57) eqn:H2; simpl; intros [= <-]; lia.
Qed.

Lemma digits_value_ge s : forall a n,
  0 <= a -> digits_value s a = Some n -> a <= n.
Proof.
  induction s as [|c s IH]; simpl; intros a n Ha.
  - intros [= <-]. lia.
  - destruct (strconv.digit c) as [d|] eqn:Hd; [|done].
    apply digit_range in Hd. intros H. apply IH in H; lia.
Qed.

(** The digit loop of [ParseUint] against the number the digits denote. *)
Lemma ParseUint_loop_decimal s : forall a,
  0 <= a <= MaxUint64 ->
  match digits_value s a with
  | Some n =>
      strconv.ParseUint_loop s a
      = if n <=? MaxUint64 then (n, None) else (MaxUint64, Some strconv.ErrRange)
  | None =>
      (strconv.ParseUint_loop s a).2 = Some strconv.ErrSyntax
      \/ strconv.ParseUint_loop s a = (MaxUint64, Some strconv.ErrRange)
  end.
Proof.
  assert (HM : MaxUint64 = 18446744073709551615) by reflexivity.
  assert (HC : strconv.cutoff10 = 1844674407370955162) by reflexivity.
  induction s as [|c s IH]; simpl; intros a Ha.
  - destruct (Z.leb_spec a MaxUint64); [done|lia].
  - destruct (strconv.digit c) as [d|] eqn:Hd; [|by left].
    apply digit_range in Hd.
    destruct (Z.leb_spec strconv.cutoff10 a) as [Hcut|Hcut].
    + destruct (digits_value s (10 * a + d)) as [n|] eqn:Hn; [|by right].
      apply digits_value_ge in Hn; [|lia].
      destruct (Z.leb_spec n MaxUint64); [lia|done].
    + assert (H10 : wrapu64 (a * 10) = a * 10)
        by (unfold wrapu64, two64; apply Z.mod_small; lia).
      rewrite H10.
      destruct (Z.leb_spec (a * 10 + d) MaxUint64) as [Hfit|Hover].
      * assert (H1 : wrapu64 (a * 10 + d) = 10 * a + d)
          by (unfold wrapu64, two64; rewrite Z.mod_small; lia).
        rewrite H1.
        destruct (Z.ltb_spec (10 * a + d) (a * 10)); [lia|].
        destruct (Z.ltb_spec MaxUint64 (10 * a + d)); [lia|]. simpl.
        apply IH. lia.
      * assert (H1 : wrapu64 (a * 10 + d) = a * 10 + d - 2 ^ 64).
        { unfold wrapu64, two64.
          symmetry. apply Z.mod_unique with 1; lia. }
        rewrite H1.
        destruct (Z.ltb_spec (a * 10 + d - 2 ^ 64) (a * 10)); [|lia]. simpl.
        destruct (digits_value s (10 * a + d)) as [n|] eqn:Hn; [|by right].
        apply digits_value_ge in Hn; [|lia].
        destruct (Z.leb_spec n MaxUint64); [lia|done].
Qed.

Lemma ParseUint_decimal s :
  s <> EmptyString ->
  match digits_value s 0 with
  | Some n =>
      strconv.ParseUint s
      = if n <=? MaxUint64 then (n, None) else (MaxUint64, Some strconv.ErrRange)
  | None =>
      (strconv.ParseUint s).2 = Some strconv.ErrSyntax
      \/ strconv.ParseUint s = (MaxUint64, Some strconv.ErrRange)
  end.
Proof.
  intros Hs. pose proof (ParseUint_loop_decimal s 0) as H.
  destruct s; [done|]. apply H. unfold MaxUint64, two64. lia.
Qed.

(** [ParseInt] against the integer a string denotes: a numeral within int64
    parses to its value without error; a numeral outside int64 gives a range
    error with the bound on the side of its sign; anything that is not a
    numeral gives an error. *)
Lemma ParseInt_decimal s :
  match decimal s with
  | Some n =>
      strconv.ParseInt s
      = if n <? MinInt64 then (MinInt64, Some strconv.ErrRange)
        else if MaxInt64 <? n then (MaxInt64, Some strconv.ErrRange)
        else (n, None)
  | None => (strconv.ParseInt s).2 <> None
  end.
Proof.
  assert (HM : MaxUint64 = 18446744073709551615) by reflexivity.
  assert (H63 : two63 = 9223372036854775808) by reflexivity.
  assert (Hmax : MaxInt64 = 9223372036854775807) by reflexivity.
  assert (Hmin : MinInt64 = -9223372036854775808) by reflexivity.
  assert (Hw1 : wrap64 (two63 - 1) = MaxInt64) by reflexivity.
  assert (Hw2 : wrap64 (- wrap64 two63) = MinInt64) by reflexivity.
  assert (Hw3 : forall x, 0 <= x < two63 -> wrap64 x = x).
  { intros x Hx. apply wrap64_id. unfold in_int64. lia. }
  assert (Hw4 : forall x, 0 <= x <= two63 -> wrap64 (- wrap64 x) = - x).
  { intros x Hx. destruct (Z.eq_dec x two63) as [->|Hne]; [reflexivity|].
    rewrite (Hw3 x) by lia. apply wrap64_id. unfold in_int64. lia. }
  (* the unsigned part [s1] with its sign [neg] *)
  assert (Hcore : forall (neg : bool) s1, s1 <> EmptyString ->
    match (if neg then Z.opp else id) <$> digits_value s1 0 with
    | Some n =>
        match strconv.ParseUint s1 with
        | (_, Some strconv.ErrSyntax) => (0, Some strconv.ErrSyntax)
        | (un, _) =>
            if negb neg && (two63 <=? un)
            then (wrap64 (two63 - 1), Some strconv.ErrRange)
            else if neg && (two63 <? un)
            then (wrap64 (- wrap64 two63), Some strconv.ErrRange)
            else (if neg then wrap64 (- wrap64 un) else wrap64 un, None)
        end
        = if n <? MinInt64 then (MinInt64, Some strconv.ErrRange)
          else if MaxInt64 <? n then (MaxInt64, Some strconv.ErrRange)
          else (n, None)
    | None =>
        match strconv.ParseUint s1 with
        | (_, Some strconv.ErrSyntax) => (0, Some strconv.ErrSyntax)
        | (un, _) =>
            if negb neg && (two63 <=? un)
            then (wrap64 (two63 - 1), Some strconv.ErrRange)
            else if neg && (two63 <? un)
            then (wrap64 (- wrap64 two63), Some strconv.ErrRange)
            else (if neg then wrap64 (- wrap64 un) else wrap64 un,
                  @None strconv.NumError)
        end.2 <> None
    end).
  { intros neg s1 Hs1. pose proof (ParseUint_decimal s1 Hs1) as HU.
    destruct (digits_value s1 0) as [n|] eqn:Hn; simpl.
    - apply digits_value_ge in Hn as Hn0; [|lia]. rewrite HU.
      rewrite Hw1, Hw2.
      destruct (Z.leb_spec n MaxUint64) as [Hfit|Hover].
      + destruct neg; simpl.
        * destruct (Z.ltb_spec two63 n).
          -- destruct (Z.ltb_spec (- n) MinInt64); [done|lia].
          -- rewrite Hw4 by lia.
             destruct (Z.ltb_spec (- n) MinInt64); [lia|].
             destruct (Z.ltb_spec MaxInt64 (- n)); [lia|done].
        * destruct (Z.leb_spec two63 n).
          -- destruct (Z.ltb_spec n MinInt64); [lia|].
             destruct (Z.ltb_spec MaxInt64 n); [done|lia].
          -- rewrite Hw3 by lia.
             destruct (Z.ltb_spec n MinInt64); [lia|].
             destruct (Z.ltb_spec MaxInt64 n); [lia|done].
      + destruct neg; simpl.
        * destruct (Z.ltb_spec two63 MaxUint64); [|lia].
          destruct (Z.ltb_spec (- n) MinInt64); [done|lia].
        * destruct (Z.leb_spec two63 MaxUint64); [|lia].
          destruct (Z.ltb_spec n MinInt64); [lia|].
          destruct (Z.ltb_spec MaxInt64 n); [done|lia].
    - destruct HU as [HU|HU].
      + destruct (strconv.ParseUint s1) as [un [[]|]]; simpl in *; done.
      + rewrite HU. destruct neg; simpl.
        * destruct (Z.ltb_spec two63 MaxUint64); [done|lia].
        * destruct (Z.leb_spec two63 MaxUint64); [done|lia]. }
  unfold decimal, strconv.ParseInt. destruct s as [|c rest]; [done|].
  destruct (Ascii.eqb c "+") eqn:Hplus.
  - destruct rest as [|c' rest]; [done|].
    pose proof (Hcore false (String c' rest) ltac:(done)) as H.
    destruct (digits_value (String c' rest) 0); exact H.
  - destruct (Ascii.eqb c "-") eqn:Hminus.
    + destruct rest as [|c' rest]; [done|].
      pose proof (Hcore true (String c' rest) ltac:(done)) as H.
      destruct (digits_value (String c' rest) 0); exact H.
    + pose proof (Hcore false (String c rest) ltac:(done)) as H.
      destruct (digits_value (String c rest) 0); exact H.
Qed.

(** ** More on rendering *)

(** X1: the latest timestamp of a stream is the integer its first
    timestamp denotes when that is a decimal numeral within int64; it is 0
    for a stream without values, for a first timestamp that is not a
    numeral, and for a numeral outside int64. *)
Theorem LatestTimestamp_decimal labels (values : list (string * string)) :
  LatestTimestamp (mkStreams labels values)
  = match values with
    | [] => 0
    | value :: _ =>
        match decimal value.1 with
        | Some n => if (MinInt64 <=? n) && (n <=? MaxInt64) then n else 0
        | None => 0
        end
    end.
Proof.
  unfold LatestTimestamp. simpl. destruct values as [|value values]; [done|].
  pose proof (ParseInt_decimal value.1) as H.
  destruct (decimal value.1) as [n|].
  - rewrite H.
    destruct (Z.ltb_spec n MinInt64), (Z.leb_spec MinInt64 n); try lia;
      simpl; [done|].
    destruct (Z.ltb_spec MaxInt64 n), (Z.leb_spec n MaxInt64); try lia; done.
  - destruct (strconv.ParseInt value.1) as [unix [err|]]; done.
Qed.

Section RenderMore.

Variable ParseLevel : string -> option logrus.Level.

(** X2: a value whose timestamp is a decimal numeral within int64 is logged
    with that number of nanoseconds as the time of each of its records. *)
Theorem value_records_time fields level (value : string * string) (n : Z) :
  decimal value.1 = Some n ->
  in_int64 n ->
  Forall (fun r => logrus.r_time r = n)
    (value_records ParseLevel fields level value).
Proof.
  intros Hd [Hlo Hhi]. pose proof (ParseInt_decimal value.1) as H.
  rewrite Hd in H.
  destruct (Z.ltb_spec n MinInt64); [lia|].
  destruct (Z.ltb_spec MaxInt64 n); [lia|].
  assert (Ht : (strconv.Atoi value.1).1 = n) by (unfold strconv.Atoi; by rewrite H).
  destruct (ParseLevel level) as [lvl|] eqn:Hp.
  - rewrite (value_records_parsed _ _ _ lvl) by done.
    repeat constructor. exact Ht.
  - rewrite value_records_unknown by done.
    repeat constructor; exact Ht.
Qed.

(** X3: [Log] only appends to the sink.  The records already there stay in
    front, and the number of records added is one or two per value of each
    stream, as its level parses or not, plus one per dropped entry. *)
Theorem Log_length m logger :
  take (length logger) (Log ParseLevel m logger) = logger
  /\ length (Log ParseLevel m logger)
     = (length logger
        + sum_list (map (fun stream =>
                           length (Values stream)
                           * records_per_value ParseLevel stream)
                      (Streams m))
        + length (DroppedEntries m))%nat.
Proof.
  rewrite Log_records. split; [by rewrite take_app_length|].
  rewrite !length_app. rewrite <- Nat.add_assoc. f_equal. f_equal.
  - induction (Streams m) as [|s streams IH]; simpl; [done|].
    rewrite length_app, IH. f_equal. clear IH.
    rewrite stream_records_eq. unfold records_per_value.
    set (fields := delete _ _). set (level := default _ _).
    induction (Values s) as [|v vs IHv]; simpl; [done|].
    rewrite length_app, IHv.
    destruct (ParseLevel level) as [lvl|] eqn:Hp.
    + by rewrite (value_records_parsed _ _ _ lvl).
    + by rewrite value_records_unknown.
  - induction (DroppedEntries m) as [|d ds IH]; simpl; [done|].
    by rewrite IH.
Qed.

(** X4: a stream without a [level] label, under a parser that rejects the
    empty string: each of its values is logged at the info level with all
    the labels of the stream as fields, and each is followed by the warning
    about an unknown level, with nothing after the text of the warning. *)
Theorem Log_without_level pre stream post dropped logger :
  Stream stream !! "level"%string = None ->
  ParseLevel ""%string = None ->
  Log ParseLevel (mkMsg (pre ++ stream :: post) dropped) logger
  = Log ParseLevel (mkMsg pre []) logger
    ++ concat (map (fun v : string * string =>
         [logrus.mkLogRecord logrus.InfoLevel (Stream stream)
            (strconv.Atoi v.1).1 v.2;
          logrus.mkLogRecord logrus.WarnLevel (Stream stream)
            (strconv.Atoi v.1).1 "last message had unknown level "])
         (Values stream))
    ++ Log ParseLevel (mkMsg post dropped) [].
Proof.
  intros Hl Hp. rewrite Log_split, stream_records_eq, Hl. simpl.
  rewrite delete_id by done. do 3 f_equal.
  apply map_ext. intros v. by rewrite value_records_unknown.
Qed.

(** X5: the dropped entries of a batch are logged after all of its streams,
    in their order, one warning with the message "dropped" each; the fields
    of the warning are all the labels of the entry, a [level] label
    included. *)
Theorem Log_dropped_entries streams dropped logger :
  Log ParseLevel (mkMsg streams dropped) logger
  = Log ParseLevel (mkMsg streams []) logger
    ++ map (fun d =>
              logrus.mkLogRecord logrus.WarnLevel (Labels d)
                (strconv.Atoi (Timestamp d)).1 "dropped")
         dropped.
Proof.
  rewrite !Log_records. simpl. rewrite app_nil_r, <- app_assoc.
  do 2 f_equal.
  induction dropped as [|d ds IH]; simpl; [done|]. rewrite IH.
  unfold log_dropped. simpl. by rewrite wrap64_Atoi, labelsToLogrusFields_id.
Qed.

End RenderMore.

Lemma value_records_time_witness :
  Forall (fun r => logrus.r_time r = 200)
    (value_records logrus.ParseLevel ∅ "warn" ("200", "hello")%string).
Proof.
  apply (value_records_time logrus.ParseLevel ∅ "warn"%string
           ("200", "hello")%string 200).
  - reflexivity.
  - unfold in_int64. vm_compute. split; discriminate.
Defined.

Lemma Log_without_level_witness :
  let stream := mkStreams {[ "job" := "x" ]}%string [("200", "hello")]%string in
  Log logrus.ParseLevel (mkMsg ([] ++ stream :: []) []) []
  = Log logrus.ParseLevel (mkMsg [] []) []
    ++ concat (map (fun v : string * string =>
         [logrus.mkLogRecord logrus.InfoLevel (Stream stream)
            (strconv.Atoi v.1).1 v.2;
          logrus.mkLogRecord logrus.WarnLevel (Stream stream)
            (strconv.Atoi v.1).1 "last message had unknown level "])
         (Values stream))
    ++ Log logrus.ParseLevel (mkMsg [] []) [].
Proof.
  intros stream.
  apply (Log_without_level logrus.ParseLevel [] stream [] [] []).
  - reflexivity.
  - reflexivity.
Defined.

(** ** More on the tracker and the consumer *)

(** X6: on a tracker that starts empty, whatever the calls, the stored
    timestamp is never negative: it is 0 or the positive argument of one of
    the calls of [Set]; and [TimeOrNow] gives the clock or a time after the
    stored timestamp. *)
Theorem track_run_stored (calls : list track_call) (now : Z) :
  let tst := track_run calls (mkTrack 0) in
  0 <= ts tst
  /\ (ts tst = 0 \/ (1 <= ts tst /\ CallSet (ts tst) ∈ calls))
  /\ (TimeOrNow now tst = now \/ ts tst < TimeOrNow now tst).
Proof.
  intros tst.
  assert (H : ts tst = 0 \/ (1 <= ts tst /\ CallSet (ts tst) ∈ calls)).
  { subst tst. induction calls as [|c calls IH] using rev_ind; [by left|].
    rewrite track_run_app. unfold track_run at 1. simpl.
    destruct c as [x|t]; simpl.
    - unfold Set_. destruct (Z.ltb_spec x 1).
      + destruct IH as [IH|[IH1 IH2]]; [by left|right].
        split; [done|]. apply elem_of_app. by left.
      + right. simpl. split; [done|]. apply elem_of_app. right. left.
    - destruct IH as [IH|[IH1 IH2]]; [by left|right].
      split; [done|]. apply elem_of_app. by left. }
  split; [|split; [exact H|]].
  - destruct H as [->|[H _]]; lia.
  - unfold TimeOrNow. destruct (0 <? ts tst); [right|by left].
    change (1 * Millisecond) with 1000000. lia.
Qed.

Section ConsumerMore.

Context {E Message : Type}.
Variable Unmarshal : Message -> E + msg.
Variable ParseLevel : string -> option logrus.Level.
Variable log_unmarshal_error : E -> Message -> logrus.Sink -> logrus.Sink.

Let run := consumer Unmarshal ParseLevel log_unmarshal_error.




End ConsumerMore.


(** ** More on retry *)



Section RetryMore.

Context {W E Rng : Type}.
Variable PowConv : Z -> Z -> Z.
Variable Int63n : Z -> Rng -> Z * Rng.
Variable Sleep : Z -> W -> W.
Variable do : W -> option E * W.

Lemma backoff_le_max base i jitter max :
  backoff PowConv base i jitter max <= max.
Proof.
  unfold backoff.
  destruct (Z.ltb_spec max
              (wrap64 (wrap64 (pow_duration PowConv base i * Second)
                       + wrap64 (jitter * Millisecond)))); lia.
Qed.

Lemma retry_loop_capped base max n :
  forall i err r w (tr : list (retry_call E)),
    Forall (sleep_at_most max) tr ->
    Forall (sleep_at_most max)
      (retry_loop PowConv Int63n (traced_Sleep Sleep) (traced_do do)
         n i base max err r (w, tr)).2.2.
Proof.
  induction n as [|n IH]; intros i err r w tr Htr; simpl; [done|].
  destruct (0 <? i).
  - destruct (Int63n 1000 r) as [j r1].
    unfold traced_do at 1, traced_Sleep at 1. simpl.
    destruct (do (Sleep (backoff PowConv base i j max) w)) as [[e|] w1].
    + apply IH. apply Forall_app. split; [|by repeat constructor].
      apply Forall_app. split; [done|].
      repeat constructor. apply backoff_le_max.
    + simpl. apply Forall_app. split; [|by repeat constructor].
      apply Forall_app. split; [done|].
      repeat constructor. apply backoff_le_max.
  - unfold traced_do at 1. simpl. destruct (do w) as [[e|] w1].
    + apply IH. apply Forall_app. split; [done|]. by repeat constructor.
    + simpl. apply Forall_app. split; [done|]. by repeat constructor.
Qed.

(** X9: whatever the number of attempts, the interval, the retried function
    and the numbers drawn, no sleep of a run of [retry] is asked for longer
    than [max]. *)
Theorem retry_sleeps_capped (r : Rng) (attempts interval max : Z) (w : W) :
  Forall (sleep_at_most max)
    (retry PowConv Int63n (traced_Sleep Sleep) (traced_do do)
       r attempts interval max (w, [])).2.2.
Proof. unfold retry. apply retry_loop_capped. constructor. Qed.

(** X12: the base of the backoff is the number of whole seconds of the
    interval: the fraction of a second is dropped, and so is the sign. *)
Theorem baseSeconds_whole (s f : Z) :
  0 <= s -> 0 <= f < Second -> s * Second + f <= MaxInt64 ->
  baseSeconds (s * Second + f) = s
  /\ baseSeconds (- (s * Second + f)) = s.
Proof.
  intros Hs Hf Hfit.
  assert (HS : Second = 1000000000) by reflexivity.
  unfold MaxInt64, two63 in Hfit.
  rewrite !baseSeconds_eq
    by (unfold in_int64, MinInt64, MaxInt64, two63; lia).
  rewrite Z.quot_opp_l by lia. rewrite Z.abs_opp.
  assert (Hq : Z.quot (s * Second + f) Second = s).
  { rewrite Z.quot_div_nonneg by lia.
    symmetry. apply Z.div_unique with f; lia. }
  rewrite Hq. split; lia.
Qed.

End RetryMore.

(** X11: with a base interval shorter than a second, in either direction,
    the power is zero: every sleep is the jitter alone, a number of
    milliseconds below a thousand, or [max] when that is shorter. *)
Theorem backoff_jitter_only (PowConv : Z -> Z -> Z) (interval i jitter max : Z) :
  - Second < interval < Second -> 1 <= i -> 0 <= jitter < 1000 ->
  backoff PowConv (baseSeconds interval) i jitter max
  = Z.min (jitter * Millisecond) max.
Proof. apply backoff_subsecond. Qed.

Lemma backoff_jitter_only_witness :
  backoff (fun _ _ => 0) (baseSeconds (500 * Millisecond)) 2 7 (2 * Minute)
  = Z.min (7 * Millisecond) (2 * Minute).
Proof.
  apply (backoff_jitter_only (fun _ _ => 0) (500 * Millisecond) 2 7 (2 * Minute)).
  - vm_compute. split; reflexivity.
  - lia.
  - lia.
Defined.

Lemma baseSeconds_whole_witness :
  baseSeconds (5 * Second + 300 * Millisecond) = 5
  /\ baseSeconds (- (5 * Second + 300 * Millisecond)) = 5.
Proof.
  apply (baseSeconds_whole 5 (300 * Millisecond)).
  - lia.
  - vm_compute. split; [discriminate|reflexivity].
  - vm_compute. discriminate.
Defined.

(** ** More on dialing and the read loop *)

Section ReadLoopMore.

Context {W E Rng Conn URL Message : Type}.
Variable PowConv : Z -> Z -> Z.
Variable Int63n : Z -> Rng -> Z * Rng.
Variable NewRand : W -> Rng.
Variable Now : W -> Z.
Variable time_Sleep : Z -> W -> W.
Variable LogsTailURL : E + URL.
Variable parse_error : E -> E.
Variable DialContext : URL -> string -> Z -> W -> (E + Conn) * W.
Variable ReadMessage : Conn -> W -> (Message * option E) * W.
Variable ctxDone : W -> bool * W.
Variable warn_read_error : E -> W -> W.
Variable latest : W -> timestampTrack.
Variable forward : Message -> W -> bool * W.

Let logtail :=
  logtailConn PowConv Int63n NewRand time_Sleep LogsTailURL parse_error
    DialContext.
Let loop :=
  read_loop PowConv Int63n NewRand Now time_Sleep LogsTailURL parse_error
    DialContext ReadMessage ctxDone warn_read_error latest forward.
Let stream :=
  StreamLogsToLogger PowConv Int63n NewRand Now time_Sleep LogsTailURL
    parse_error DialContext ReadMessage ctxDone warn_read_error latest forward.

(** X13: the schedule of a dial that fails for good.  The first dial is
    made at once; the second comes after a sleep of five seconds and the
    third after a sleep of twenty-five seconds, each lengthened by the
    milliseconds drawn for it; every dial asks for the same start, the time
    [since] in nanoseconds; after the third failure its error is returned,
    without a connection. *)
Theorem logtailConn_schedule u referenceID since w e1 w1 j1 r1 e2 w2 j2 r2 e3 w3 :
  LogsTailURL = inr u ->
  0 <= j1 < 1000 -> 0 <= j2 < 1000 ->
  DialContext u referenceID (wrap64 since) w = (inl e1, w1) ->
  Int63n 1000 (NewRand w) = (j1, r1) ->
  DialContext u referenceID (wrap64 since)
    (time_Sleep (5 * Second + j1 * Millisecond) w1) = (inl e2, w2) ->
  Int63n 1000 r1 = (j2, r2) ->
  DialContext u referenceID (wrap64 since)
    (time_Sleep (25 * Second + j2 * Millisecond) w2) = (inl e3, w3) ->
  logtail referenceID since w = ((None, Some e3), w3).
Proof.
  intros Hu Hj1 Hj2 H1 Hr1 H2 Hr2 H3.
  assert (HS : Second = 1000000000) by reflexivity.
  assert (HM : Millisecond = 1000000) by reflexivity.
  assert (Hmin : Minute = 60000000000) by reflexivity.
  assert (Hb : forall i j, 1 <= i <= 2 -> 0 <= j < 1000 ->
            backoff PowConv 5 i j (2 * Minute) = 5 ^ i * Second + j * Millisecond).
  { intros i j Hi Hj. rewrite backoff_in_range; try lia.
    - assert (i = 1 \/ i = 2) as [->| ->] by lia; rewrite HS, HM, Hmin; lia.
    - assert (i = 1 \/ i = 2) as [->| ->] by lia; vm_compute; discriminate. }
  eapply logtailConn_exhausted; eauto.
  - rewrite Hb by lia. exact H2.
  - rewrite Hb by lia. exact H3.
Qed.

(** A dial that succeeds at the first attempt. *)
Lemma logtailConn_dial_once u referenceID since w c w1 :
  LogsTailURL = inr u ->
  DialContext u referenceID (wrap64 since) w = (inr c, w1) ->
  logtail referenceID since w = ((Some c, None), w1).
Proof.
  intros Hu H1. unfold logtail, logtailConn. rewrite Hu.
  unfold retry. change (Z.to_nat (wrap64 3)) with 3%nat.
  rewrite retry_loop_first. unfold dial at 1. by rewrite H1.
Qed.

(** X14: a dial that succeeds at the first attempt returns its connection
    at once: no sleep is taken and no number is drawn, the world is the one
    the dial left. *)
Theorem logtailConn_first_dial u referenceID since w c w1 :
  LogsTailURL = inr u ->
  DialContext u referenceID (wrap64 since) w = (inr c, w1) ->
  logtail referenceID since w = ((Some c, None), w1).
Proof. apply logtailConn_dial_once. Qed.

Lemma read_loop_conn fuel referenceID :
  forall c w, (loop fuel referenceID (Some c) w).1 <> NilConn.
Proof.
  induction fuel as [|fuel IH]; intros c w; [done|]. unfold loop in *. simpl.
  destruct (ReadMessage c w) as [[message err] w1].
  destruct (ctxDone w1) as [[] w2]; [done|].
  destruct err as [e|].
  - fold logtail.
    destruct (logtail referenceID _ _) as [[newconn [errd|]] w4] eqn:Hdial;
      [done|].
    apply (logtailConn_conn PowConv Int63n NewRand Now time_Sleep LogsTailURL
             parse_error DialContext ReadMessage ctxDone warn_read_error latest
             forward)
      in Hdial as [c' ->]. apply IH.
  - destruct (forward message w2) as [[] w3]; [apply IH|done].
Qed.

(** X15: a run never reads from a nil connection: the first dial and every
    later dial hands the loop a connection whenever it reports no error. *)
Theorem StreamLogsToLogger_conn fuel referenceID tailFrom w :
  (stream fuel referenceID tailFrom w).1 <> NilConn.
Proof.
  unfold stream, StreamLogsToLogger. fold logtail.
  destruct (logtail referenceID _ w) as [[conn [err|]] w1] eqn:Hdial; [done|].
  apply (logtailConn_conn PowConv Int63n NewRand Now time_Sleep LogsTailURL
             parse_error DialContext ReadMessage ctxDone warn_read_error latest
             forward)
    in Hdial as [c ->]. apply read_loop_conn.
Qed.

(** X16: the only error the read loop ever returns is an error of a read.
    A property that holds of every error [ReadMessage] can give holds of
    the error returned; the errors of the dials made to reconnect are
    under no such condition. *)
Theorem read_loop_returns_read_error (P : E -> Prop) :
  (forall c w message e w', ReadMessage c w = ((message, Some e), w') -> P e) ->
  forall fuel referenceID conn w e w',
    loop fuel referenceID conn w = (Returned (Some e), w') -> P e.
Proof.
  intros HP. induction fuel as [|fuel IH]; intros referenceID conn w e w';
    [done|].
  unfold loop in *. simpl. destruct conn as [c|]; [|done].
  destruct (ReadMessage c w) as [[message err] w1] eqn:Hread.
  destruct (ctxDone w1) as [[] w2]; [done|].
  destruct err as [e0|].
  - fold logtail.
    destruct (logtail referenceID _ _) as [[newconn [errd|]] w4].
    + intros [= <- _]. eapply HP, Hread.
    + apply IH.
  - destruct (forward message w2) as [[] w3]; [apply IH|done].
Qed.

End ReadLoopMore.

Lemma logtailConn_schedule_witness :
  logtailConn (fun _ _ => 0) (fun _ (r : unit) => (7, r)) (fun _ => tt)
    (fun _ (w : nat) => w) (inr tt) (fun e => e) (sample_dial 3)
    "run" 1000 0%nat
  = ((None, Some "refused"%string), 3%nat).
Proof.
  apply (logtailConn_schedule (fun _ _ => 0) (fun _ (r : unit) => (7, r))
           (fun _ => tt) (fun _ (w : nat) => w) (inr tt) (fun e => e)
           (sample_dial 3) tt "run" 1000 0%nat
           "refused"%string 1%nat 7 tt "refused"%string 2%nat 7 tt).
  - reflexivity.
  - lia.
  - lia.
  - reflexivity.
  - reflexivity.
  - reflexivity.
  - reflexivity.
  - reflexivity.
Defined.

Lemma logtailConn_first_dial_witness :
  logtailConn (fun _ _ => 0) (fun _ (r : unit) => (7, r)) (fun _ => tt)
    (fun _ (w : nat) => w) (inr tt) (fun e => e) (sample_dial 0)
    "run" 1000 0%nat
  = ((Some 9%nat, None), 1%nat).
Proof.
  apply (logtailConn_first_dial (fun _ _ => 0) (fun _ (r : unit) => (7, r))
           (fun _ => tt) (fun _ (w : nat) => w) (inr tt) (fun e => e)
           (sample_dial 0) tt "run" 1000 0%nat).
  - reflexivity.
  - reflexivity.
Defined.

Lemma read_loop_returns_read_error_witness :
  "reset"%string <> "refused"%string.
Proof.
  apply (read_loop_returns_read_error (fun _ _ => 0)
           (fun _ (r : unit) => (7, r)) (fun _ => tt) (fun _ => 0)
           (fun _ (w : nat) => w) (inr tt) (fun e => e) (sample_dial 3)
           sample_read (fun w => (false, w)) (fun _ w => w)
           (fun _ => mkTrack 0) (fun _ w => (true, w))
           (fun e => e <> "refused"%string)
           ltac:(intros c w message e w' [= _ <- _]; discriminate)
           1%nat "run"%string (Some 0%nat) 0%nat "reset"%string 3%nat).
  reflexivity.
Defined.

(** ** The order of the messages handed to the buffer *)

Section ForwardOrder.

Context {W E Rng Conn URL Message : Type}.
Variable PowConv : Z -> Z -> Z.
Variable Int63n : Z -> Rng -> Z * Rng.
Variable NewRand : W -> Rng.
Variable Now : W -> Z.
Variable time_Sleep : Z -> W -> W.
Variable LogsTailURL : E + URL.
Variable parse_error : E -> E.
Variable DialContext : URL -> string -> Z -> W -> (E + Conn) * W.
Variable ReadMessage : Conn -> W -> (Message * option E) * W.
Variable ctxDone : W -> bool * W.
Variable warn_read_error : E -> W -> W.
Variable latest : W -> timestampTrack.
Variable forward : Message -> W -> bool * W.

Let trace := list (loop_event Message E).
Let logtail :=
  logtailConn PowConv Int63n NewRand time_Sleep LogsTailURL parse_error
    DialContext.
Let loop :=
  read_loop PowConv Int63n NewRand Now time_Sleep LogsTailURL parse_error
    DialContext ReadMessage ctxDone warn_read_error latest forward.
Let tloop :=
  traced_loop PowConv Int63n NewRand Now time_Sleep LogsTailURL parse_error
    DialContext ReadMessage ctxDone warn_read_error latest forward.
Let tSleep := fun d (st : W * trace) => (time_Sleep d st.1, st.2).
Let tDial := fun u referenceID start =>
  lifted (E := E) (Message := Message) (DialContext u referenceID start).

Lemma forwarded_app (tr1 tr2 : trace) :
  forwarded (tr1 ++ tr2) = forwarded tr1 ++ forwarded tr2.
Proof. apply omap_app. Qed.

Lemma read_ok_app (tr1 tr2 : trace) :
  read_ok (tr1 ++ tr2) = read_ok tr1 ++ read_ok tr2.
Proof. apply omap_app. Qed.

(** The retried dial leaves the record alone. *)
Lemma dial_loop_lifted u referenceID start base max n :
  forall i err r c w (tr : trace),
    retry_loop PowConv Int63n
      (fun d (st : option Conn * (W * trace)) => (st.1, tSleep d st.2))
      (dial tDial u referenceID start) n i base max err r (c, (w, tr))
    = let '(e, (c', w')) :=
        retry_loop PowConv Int63n
          (fun d (st : option Conn * W) => (st.1, time_Sleep d st.2))
          (dial DialContext u referenceID start) n i base max err r (c, w) in
      (e, (c', (w', tr))).
Proof.
  induction n as [|n IH]; intros i err r c w tr; [done|]. simpl.
  destruct (0 <? i).
  - destruct (Int63n 1000 r) as [j r1]. simpl.
    unfold tDial at 1, tSleep at 1, lifted. simpl.
    destruct (DialContext u referenceID start _) as [[e|c1] w1]; [|done].
    apply IH.
  - unfold dial at 1 3, tDial at 1, lifted. simpl.
    destruct (DialContext u referenceID start w) as [[e|c1] w1]; [|done].
    apply IH.
Qed.

Lemma logtailConn_lifted referenceID since w (tr : trace) :
  logtailConn PowConv Int63n (fun st : W * trace => NewRand st.1) tSleep
    LogsTailURL parse_error tDial referenceID since (w, tr)
  = let '(res, w') := logtail referenceID since w in (res, (w', tr)).
Proof.
  unfold logtail, logtailConn. destruct LogsTailURL as [err|u]; [done|].
  unfold retry. simpl fst.
  rewrite (dial_loop_lifted u referenceID (wrap64 since)).
  destruct (retry_loop _ _ _ _ _ _ _ _ _ _ (None, w)) as [[e|] [c w']]; done.
Qed.

Lemma read_loop_order fuel referenceID :
  forall conn w (tr : trace),
    forwarded tr = read_ok tr ->
    exists tr' : trace,
      tloop fuel referenceID conn (w, tr)
      = ((loop fuel referenceID conn w).1,
         ((loop fuel referenceID conn w).2, tr'))
      /\ (forwarded tr' = read_ok tr'
          \/ exists message, read_ok tr' = forwarded tr' ++ [message])
      /\ ((loop fuel referenceID conn w).1 = Reading ->
          forwarded tr' = read_ok tr').
Proof.
  induction fuel as [|fuel IH]; intros conn w tr Htr.
  - exists tr. simpl. split; [done|]. split; [by left|done].
  - unfold tloop, traced_loop, loop in *. simpl.
    destruct conn as [c|];
      [|exists tr; split; [done|]; split; [by left|done]].
    unfold traced_Read at 1. simpl.
    destruct (ReadMessage c w) as [[message err] w1]. simpl.
    unfold lifted at 1. simpl.
    destruct (ctxDone w1) as [[] w2]; simpl.
    { eexists. split; [done|]. split; [|done].
      rewrite forwarded_app, read_ok_app, Htr. simpl.
      destruct err; simpl; rewrite ?app_nil_r; [by left|right; by eexists]. }
    destruct err as [e|].
    + fold tSleep tDial.
      rewrite logtailConn_lifted. fold logtail.
      destruct (logtail referenceID _ _) as [[newconn [errd|]] w4]; simpl.
      * eexists. split; [done|]. split; [|done].
        rewrite forwarded_app, read_ok_app, Htr. simpl.
        rewrite !app_nil_r. by left.
      * apply IH. rewrite forwarded_app, read_ok_app, Htr. simpl.
        by rewrite !app_nil_r.
    + unfold traced_forward at 1. simpl.
      destruct (forward message w2) as [[] w3]; simpl.
      * apply IH. rewrite !forwarded_app, !read_ok_app, Htr. simpl.
        by rewrite !app_nil_r.
      * eexists. split; [done|]. split; [|done].
        rewrite !forwarded_app, !read_ok_app, Htr. simpl.
        rewrite !app_nil_r. right. by eexists.
Qed.

(** X17: the buffer is handed the messages exactly as they are read.  In
    the record of a run of the read loop, the messages the buffer took are
    the messages read without an error, in the same order, none left out
    and none twice, but for the last one when the loop returned with it in
    hand; while the loop is still reading the two sequences are equal.  The
    record changes nothing: the outcome and the world are those of the loop
    without it. *)
Theorem read_loop_forwards_in_order fuel referenceID conn w :
  let res := tloop fuel referenceID conn (w, []) in
  res.1 = (loop fuel referenceID conn w).1
  /\ res.2.1 = (loop fuel referenceID conn w).2
  /\ (forwarded res.2.2 = read_ok res.2.2
      \/ exists message, read_ok res.2.2 = forwarded res.2.2 ++ [message])
  /\ match res.1 with
     | Reading => forwarded res.2.2 = read_ok res.2.2
     | _ => True
     end.
Proof.
  destruct (read_loop_order fuel referenceID conn w [] eq_refl)
    as (tr' & Heq & Hord & Hrun).
  intros res. subst res. unfold trace in *. rewrite Heq. simpl.
  repeat split; [done|].
  destruct (loop fuel referenceID conn w).1; auto.
Qed.

End ForwardOrder.

(** ** The InfluxDB output *)

Lemma map_copy_id {A} (m : gmap string A) :
  map_fold (fun k v (r : gmap string A) => <[k := v]> r) ∅ m = m.
Proof.
  apply (map_fold_weak_ind (fun r m => r = m)); [done|].
  intros i x m' r _ ->. done.
Qed.

Section Influx.

Context {F : Type}.
Variable ParseFloat : string -> option F.
Variable fieldKinds : gmap string Z.
Variable CloneTags : positive -> gmap string string.

Let extract := influxdb.extractTagsToValues ParseFloat fieldKinds.
Let fv := influxdb.field_value ParseFloat.

Lemma extract_lookup tags values (k : string) :
  (extract tags values).1 !! k
  = match fieldKinds !! k with
    | Some _ => None
    | None => tags !! k
    end
  /\ (extract tags values).2 !! k
     = match fieldKinds !! k, tags !! k with
       | Some kind, Some val => Some (fv kind val)
       | _, _ => values !! k
       end.
Proof.
  unfold extract, influxdb.extractTagsToValues. revert k.
  apply (map_fold_weak_ind
           (fun (r : gmap string string * gmap string (influxdb.value F)) m =>
              forall k,
                r.1 !! k = match m !! k with
                           | Some _ => None
                           | None => tags !! k
                           end
                /\ r.2 !! k = match m !! k, tags !! k with
                              | Some kind, Some val => Some (fv kind val)
                              | _, _ => values !! k
                              end)).
  - intros k. by rewrite lookup_empty.
  - intros i x m [t v] Hi IH k. simpl in *.
    destruct (IH i) as [Hti Hvi]. rewrite Hi in Hti, Hvi.
    destruct (IH k) as [Htk Hvk].
    destruct (decide (i = k)) as [->|Hne].
    + rewrite lookup_insert_eq. rewrite Hti.
      destruct (tags !! k) as [val|] eqn:Hval; simpl.
      * by rewrite lookup_delete_eq, lookup_insert_eq.
      * rewrite Hi in Htk, Hvk. done.
    + rewrite lookup_insert_ne by done. rewrite Hti.
      destruct (tags !! i) as [val|]; simpl.
      * rewrite lookup_delete_ne, lookup_insert_ne by done.
        exact (conj Htk Hvk).
      * exact (conj Htk Hvk).
Qed.

(** X18: what [extractTagsToValues] leaves in the two maps.  A tag whose
    name is in [fieldKinds] leaves the tags and enters the values, turned
    into a field of its kind; every other tag stays, and every other value
    is untouched; a name of [fieldKinds] that is not a tag changes
    nothing. *)
Theorem extractTagsToValues_lookup tags values (k : string) :
  (extract tags values).1 !! k
  = match fieldKinds !! k with
    | Some _ => None
    | None => tags !! k
    end
  /\ (extract tags values).2 !! k
     = match fieldKinds !! k, tags !! k with
       | Some kind, Some val => Some (fv kind val)
       | _, _ => values !! k
       end.
Proof. apply extract_lookup. Qed.

(** X19: a tag of the kind [Int] becomes an integer field exactly when it
    is a decimal numeral within int64; any other text, and a numeral out of
    range, stays the string it was. *)
Theorem field_value_int (val : string) :
  fv influxdb.KindInt val
  = match decimal val with
    | Some n =>
        if (MinInt64 <=? n) && (n <=? MaxInt64) then influxdb.VInt n
        else influxdb.VString val
    | None => influxdb.VString val
    end.
Proof.
  unfold fv, influxdb.field_value. simpl.
  pose proof (ParseInt_decimal val) as H.
  destruct (decimal val) as [n|].
  - rewrite H.
    destruct (Z.ltb_spec n MinInt64), (Z.leb_spec MinInt64 n); try lia;
      simpl; [done|].
    destruct (Z.ltb_spec MaxInt64 n), (Z.leb_spec n MaxInt64); try lia; done.
  - destruct (strconv.ParseInt val) as [i [err|]]; done.
Qed.

Let step := influxdb.batch_sample ParseFloat fieldKinds CloneTags.
Let point := point_of ParseFloat fieldKinds CloneTags.

Let ok := cache_ok ParseFloat fieldKinds CloneTags.

Lemma batch_sample_point cache points sample :
  ok cache ->
  ok (step (cache, points) sample).1
  /\ (step (cache, points) sample).2 = points ++ [point sample].
Proof.
  intros Hok. unfold ok, cache_ok in *.
  unfold step, influxdb.batch_sample, point, point_of.
  destruct (cache !! influxdb.Tags sample) as [[ctags cvalues]|] eqn:Hc.
  - destruct (Hok _ _ _ Hc) as (v0 & -> & ->). simpl. split; [done|].
    rewrite map_copy_id, insert_insert_eq.
    by destruct (influxdb.extractTagsToValues ParseFloat fieldKinds
                   (CloneTags (influxdb.Tags sample)) ∅).
  - destruct (influxdb.extractTagsToValues ParseFloat fieldKinds
                (CloneTags (influxdb.Tags sample)) ∅) as [tags values] eqn:He.
    simpl. split; [|done].
    intros ptr ctags cvalues. destruct (decide (influxdb.Tags sample = ptr))
      as [<-|Hne].
    + rewrite lookup_insert_eq. intros [= <- <-].
      exists (influxdb.Value sample). by rewrite He.
    + rewrite lookup_insert_ne by done. apply Hok.
Qed.

Lemma batch_samples_points samples : forall cache points,
  ok cache ->
  ok (fold_left step samples (cache, points)).1
  /\ (fold_left step samples (cache, points)).2
     = points ++ map point samples.
Proof.
  induction samples as [|sample samples IH]; intros cache points Hok.
  - simpl. by rewrite app_nil_r.
  - change (fold_left step (sample :: samples) (cache, points))
      with (fold_left step samples (step (cache, points) sample)).
    destruct (batch_sample_point cache points sample Hok) as [Hok' Hp].
    destruct (step (cache, points) sample) as [cache' points'].
    simpl in Hok', Hp. subst points'.
    destruct (IH cache' (points ++ [point sample]) Hok') as [Hok'' Hp'].
    split; [exact Hok''|]. rewrite Hp'. simpl. by rewrite <- app_assoc.
Qed.

Lemma batch_points (containers : list (list (influxdb.Sample F))) :
  influxdb.batchFromSamples ParseFloat fieldKinds CloneTags containers
  = map point (concat containers).
Proof.
  unfold influxdb.batchFromSamples. fold step.
  assert (H : forall cache points, ok cache ->
    (fold_left (fun st samples => fold_left step samples st) containers
       (cache, points)).2 = points ++ map point (concat containers)).
  { induction containers as [|samples containers IH]; intros cache points Hok.
    - simpl. by rewrite app_nil_r.
    - change (fold_left (fun st samples => fold_left step samples st)
                (samples :: containers) (cache, points))
        with (fold_left (fun st samples => fold_left step samples st)
                containers (fold_left step samples (cache, points))).
      destruct (batch_samples_points samples cache points Hok) as [Hok' Hp].
      destruct (fold_left step samples (cache, points)) as [cache' points'].
      simpl in Hok', Hp. subst points'. rewrite IH by exact Hok'.
      simpl. by rewrite map_app, app_assoc. }
  rewrite H; [done|]. intros ptr ctags cvalues. by rewrite lookup_empty.
Qed.

(** X20: the cache of [batchFromSamples] cannot be told from its absence.
    The batch has one point per sample, container after container, in the
    order of the samples, and the point of a sample is the one computed
    from the tags at its address, whether or not an earlier sample shared
    that address and left its own value in the cached fields. *)
Theorem batchFromSamples_points (containers : list (list (influxdb.Sample F))) :
  influxdb.batchFromSamples ParseFloat fieldKinds CloneTags containers
  = map point (concat containers).
Proof. apply batch_points. Qed.

(** X21: in every point of a batch the field ["value"] is the value of its
    sample, also when a tag named ["value"] is one of those turned into
    fields; the point has the name of the metric and the time of the
    sample; and its tags are the tags at the address of the sample's tags
    without those that [fieldKinds] names. *)
Theorem batchFromSamples_value (containers : list (list (influxdb.Sample F))) :
  Forall2
    (fun sample p =>
       influxdb.p_fields p !! "value"%string
       = Some (influxdb.VFloat (influxdb.Value sample))
       /\ influxdb.p_measurement p = influxdb.MetricName sample
       /\ influxdb.p_time p = influxdb.Time sample
       /\ forall k,
            influxdb.p_tags p !! k
            = match fieldKinds !! k with
              | Some _ => None
              | None => CloneTags (influxdb.Tags sample) !! k
              end)
    (concat containers)
    (influxdb.batchFromSamples ParseFloat fieldKinds CloneTags containers).
Proof.
  rewrite batch_points.
  induction (concat containers) as [|sample samples IH]; simpl; constructor;
    [|exact IH].
  unfold point, point_of. fold extract.
  pose proof (fun k =>
    proj1 (extract_lookup (CloneTags (influxdb.Tags sample)) ∅ k)) as Ht.
  destruct (extract (CloneTags (influxdb.Tags sample)) ∅) as [tags values].
  simpl in *. repeat split.
  - by rewrite lookup_insert_eq.
  - exact Ht.
Qed.

End Influx.

(** ** The sleep before an attempt, and the point a reconnection resumes at *)

(** X10: while the power of the base in nanoseconds, with the longest
    jitter, fits int64, the sleep before attempt [i] is the [i]-th power of
    the base in seconds plus the jitter in milliseconds, or [max] when that
    is shorter; it is never negative unless [max] is. *)
Theorem backoff_formula (PowConv : Z -> Z -> Z) (base i jitter max : Z) :
  0 <= base -> 1 <= i -> 0 <= jitter < 1000 ->
  base ^ i * Second + 999 * Millisecond <= MaxInt64 ->
  backoff PowConv base i jitter max
  = Z.min (base ^ i * Second + jitter * Millisecond) max
  /\ Z.min 0 max <= backoff PowConv base i jitter max <= max.
Proof.
  intros Hb Hi Hj Hfit. rewrite backoff_in_range by done.
  split; [done|].
  assert (0 <= base ^ i) by (apply Z.pow_nonneg; lia).
  assert (HS : Second = 1000000000) by reflexivity.
  assert (HM : Millisecond = 1000000) by reflexivity.
  rewrite HS, HM. lia.
Qed.

Lemma backoff_formula_witness :
  backoff (fun _ _ => 0) 5 2 7 (2 * Minute)
  = Z.min (5 ^ 2 * Second + 7 * Millisecond) (2 * Minute)
  /\ Z.min 0 (2 * Minute) <= backoff (fun _ _ => 0) 5 2 7 (2 * Minute)
     <= 2 * Minute.
Proof.
  apply (backoff_formula (fun _ _ => 0) 5 2 7 (2 * Minute)).
  - lia.
  - lia.
  - lia.
  - vm_compute. discriminate.
Defined.

Section Resume.

Context {W E Rng Conn URL Message : Type}.
Variable PowConv : Z -> Z -> Z.
Variable Int63n : Z -> Rng -> Z * Rng.
Variable NewRand : W -> Rng.
Variable Now : W -> Z.
Variable time_Sleep : Z -> W -> W.
Variable LogsTailURL : E + URL.
Variable parse_error : E -> E.
Variable DialContext : URL -> string -> Z -> W -> (E + Conn) * W.
Variable ReadMessage : Conn -> W -> (Message * option E) * W.
Variable ctxDone : W -> bool * W.
Variable warn_read_error : E -> W -> W.
Variable latest : W -> timestampTrack.
Variable forward : Message -> W -> bool * W.

Let loop :=
  read_loop PowConv Int63n NewRand Now time_Sleep LogsTailURL parse_error
    DialContext ReadMessage ctxDone warn_read_error latest forward.

(** X22: where a reconnection resumes.  After a read error with the
    context not done, when the tracker holds a positive timestamp the fresh
    dial asks for the logs from one millisecond after it, and when the
    tracker holds none it asks for the logs from the reading of the clock;
    if that dial succeeds at once, the loop goes on reading from its
    connection. *)
Theorem reconnect_start fuel referenceID u c w message e w1 w2 c' w4 :
  ReadMessage c w = ((message, Some e), w1) ->
  ctxDone w1 = (false, w2) ->
  LogsTailURL = inr u ->
  let w3 := warn_read_error e w2 in
  let start :=
    if 0 <? ts (latest w3) then ts (latest w3) + 1 * Millisecond
    else Now w3 in
  in_int64 start ->
  DialContext u referenceID start w3 = (inr c', w4) ->
  loop (S fuel) referenceID (Some c) w = loop fuel referenceID (Some c') w4.
Proof.
  intros Hread Hdone Hu w3 start Hfit Hdial. unfold loop. simpl.
  rewrite Hread, Hdone. fold w3.
  rewrite (logtailConn_dial_once PowConv Int63n NewRand time_Sleep
             LogsTailURL parse_error DialContext u referenceID
             (TimeOrNow (Now w3) (latest w3)) w3 c' w4 Hu); [done|].
  unfold TimeOrNow. fold start. by rewrite wrap64_id.
Qed.

End Resume.

Lemma reconnect_start_witness :
  let run :=
    read_loop (W := nat) (E := string) (Rng := unit) (Conn := nat)
      (URL := unit) (Message := unit)
      (fun _ _ => 0) (fun _ r => (7, r)) (fun _ => tt) (fun _ => 55)
      (fun _ w => w) (inr tt) (fun e => e)
      (fun _ _ start w =>
         if start =? 1001000 then (inr 9%nat, S w)
         else (inl "refused"%string, S w))
      sample_read (fun w => (false, w)) (fun _ w => w)
      (fun _ => mkTrack 1000) (fun _ w => (true, w)) in
  run 1%nat "run"%string (Some 0%nat) 0%nat
  = run 0%nat "run"%string (Some 9%nat) 1%nat.
Proof.
  intros run.
  apply (reconnect_start (W := nat) (E := string) (Rng := unit) (Conn := nat)
           (URL := unit) (Message := unit)
           (fun _ _ => 0) (fun _ r => (7, r)) (fun _ => tt) (fun _ => 55)
           (fun _ w => w) (inr tt) (fun e => e)
           (fun _ _ start w =>
              if start =? 1001000 then (inr 9%nat, S w)
              else (inl "refused"%string, S w))
           sample_read (fun w => (false, w)) (fun _ w => w)
           (fun _ => mkTrack 1000) (fun _ w => (true, w))
           0%nat "run"%string tt 0%nat 0%nat tt "reset"%string 0%nat 0%nat
           9%nat 1%nat).
  - reflexivity.
  - reflexivity.
  - reflexivity.
  - vm_compute. split; discriminate.
  - reflexivity.
Defined.

Lemma StreamLogsToLogger_conn_witness :
  (StreamLogsToLogger (W := nat) (E := string) (Rng := unit) (Conn := nat)
     (URL := unit) (Message := unit)
     (fun _ _ => 0) (fun _ r => (7, r)) (fun _ => tt) (fun _ => 55)
     (fun _ w => w) (inr tt) (fun e => e) (sample_dial 2)
     sample_read (fun w => (false, w)) (fun _ w => w)
     (fun _ => mkTrack 0) (fun _ w => (true, w))
     4%nat "run"%string 0 0%nat).1
  <> NilConn.
Proof.
  apply (StreamLogsToLogger_conn (W := nat) (E := string) (Rng := unit)
           (Conn := nat) (URL := unit) (Message := unit)
           (fun _ _ => 0) (fun _ r => (7, r)) (fun _ => tt) (fun _ => 55)
           (fun _ w => w) (inr tt) (fun e => e) (sample_dial 2)
           sample_read (fun w => (false, w)) (fun _ w => w)
           (fun _ => mkTrack 0) (fun _ w => (true, w))
           4%nat "run"%string 0 0%nat).
Defined.
